(** * utools-list-filter: the item store, the match engine, the selection
      controller and the import/export codec, embedded from the Vue sources

    Sources embedded here:
    - the root component, which imports both views and registers the
      [onPluginEnter] handler (module [App]);
    - [src/ListSearch/index.vue]: matching, ranking, keyboard selection and
      the auto-commit timer (module [ListSearch]);
    - [./ListManager/index.vue]: add, update, delete, import, export and the
      management filter (module [ListManager]).

    Strings are Stdlib [string]s read as sequences of code units below 256
    (the Latin-1 block); on such strings the JavaScript primitives used by the
    sources ([toLowerCase], [includes], [startsWith], [trim], the regular
    expression classes [\s] and [.]) are modelled exactly in module [JS].
    Handlers are state transformers on a record of the component's refs;
    what they do to the outside (host calls, alerts, the stored blob, the
    pending timer) is recorded in that state. *)

From Stdlib Require Import Bool List ZArith NArith Lia.
From Stdlib Require Import Ascii String DecimalString Permutation.
Import ListNotations.

Local Open Scope string_scope.
Local Open Scope list_scope.

(* ================================================================== *)
(** ** JavaScript primitives used by the sources *)
(* ================================================================== *)

Module JS.

(** [String.prototype.toLowerCase] on one code unit below 256: the letters
    A-Z, and the Latin-1 capitals U+00C0-U+00DE except the multiplication
    sign U+00D7, move up by 32; every other code unit maps to itself. *)
Definition lowerChar (c : ascii) : ascii :=
  let n := N_of_ascii c in
  if ((65 <=? n) && (n <=? 90) || (192 <=? n) && (n <=? 222) && negb (n =? 215))%N
  then ascii_of_N (n + 32)
  else c.

Fixpoint toLowerCase (s : string) : string :=
  match s with
  | EmptyString => EmptyString
  | String c r => String (lowerChar c) (toLowerCase r)
  end.

(** [s.startsWith(p)]. *)
Fixpoint startsWith (s p : string) {struct p} : bool :=
  match p, s with
  | EmptyString, _ => true
  | String _ _, EmptyString => false
  | String b p', String a s' => Ascii.eqb a b && startsWith s' p'
  end.

(** [s.includes(p)]: [p] occurs at some position of [s]. *)
Fixpoint includes (s p : string) : bool :=
  startsWith s p ||
  match s with
  | EmptyString => false
  | String _ s' => includes s' p
  end.

(** The code units below 256 in the classes WhiteSpace and LineTerminator:
    TAB, LF, VT, FF, CR, SP and NBSP. This is both what [\s] matches and what
    [trim] strips. *)
Definition isWhiteSpace (c : ascii) : bool :=
  let n := N_of_ascii c in
  ((9 <=? n) && (n <=? 13) || (n =? 32) || (n =? 160))%N.

(** LF and CR: the code units below 256 that [.] does not match. *)
Definition isLineTerminator (c : ascii) : bool :=
  let n := N_of_ascii c in
  ((n =? 10) || (n =? 13))%N.

Fixpoint trimStart (s : string) : string :=
  match s with
  | EmptyString => EmptyString
  | String c r => if isWhiteSpace c then trimStart r else s
  end.

Fixpoint trimEnd (s : string) : string :=
  match s with
  | EmptyString => EmptyString
  | String c r =>
      match trimEnd r with
      | EmptyString => if isWhiteSpace c then EmptyString else String c EmptyString
      | r' => String c r'
      end
  end.

(** [s.trim()]. *)
Definition trim (s : string) : string := trimEnd (trimStart s).

(** JavaScript truthiness of a string: only the empty string is falsy. *)
Definition truthy (s : string) : bool :=
  match s with
  | EmptyString => false
  | String _ _ => true
  end.

(** [Array.prototype.sort(cmp)]. The language guarantees a stable sort, and
    for a consistent comparator the result is then unique; it is computed
    here by a stable insertion sort. [cmp a b <= 0] keeps [a] in front of
    [b], and an element is only ever inserted in front of elements that
    followed it in the input, so ties keep their input order. *)
Fixpoint insert {A : Type} (cmp : A -> A -> Z) (x : A) (l : list A) : list A :=
  match l with
  | [] => [x]
  | y :: l' => if (cmp x y <=? 0)%Z then x :: l else y :: insert cmp x l'
  end.

Definition sort {A : Type} (cmp : A -> A -> Z) (l : list A) : list A :=
  fold_right (insert cmp) [] l.

(** [n.toString()] for a non-negative integer: its decimal digits. *)
Definition toString (n : N) : string :=
  NilZero.string_of_uint (N.to_uint n).

End JS.

(* ================================================================== *)
(** ** The data model *)
(* ================================================================== *)

(** [interface ListItem], declared identically in both components. *)
Record ListItem : Type := mkItem {
  id : string;
  title : string;
  subtitle : string;
  trigger : string;
  data : string
}.

(** The calls made on the host object [window.utools]. *)
Inductive HostCall : Type :=
| CopyText (text : string)
| HideMainWindow
| OutPlugin.

(* ================================================================== *)
(** ** src/ListSearch/index.vue *)
(* ================================================================== *)

Module ListSearch.

(** The filter callback of [matchedItems]. *)
Definition isCandidate (keyword : string) (item : ListItem) : bool :=
  let trigger := JS.toLowerCase (trigger item) in
  let title := JS.toLowerCase (title item) in
  let subtitle := JS.toLowerCase (subtitle item) in
  JS.includes trigger keyword || JS.includes title keyword ||
  JS.includes subtitle keyword.

(** The comparator handed to [sort] in [matchedItems]. *)
Definition compareFn (keyword : string) (a b : ListItem) : Z :=
  let aExactMatch := String.eqb (JS.toLowerCase (trigger a)) keyword in
  let bExactMatch := String.eqb (JS.toLowerCase (trigger b)) keyword in
  if aExactMatch && negb bExactMatch then (-1)%Z
  else if negb aExactMatch && bExactMatch then 1%Z
  else
    let aStartsWith := JS.startsWith (JS.toLowerCase (trigger a)) keyword in
    let bStartsWith := JS.startsWith (JS.toLowerCase (trigger b)) keyword in
    if aStartsWith && negb bStartsWith then (-1)%Z
    else if negb aStartsWith && bStartsWith then 1%Z
    else 0%Z.

(** The computed property [matchedItems], as a function of the two refs it
    reads. *)
Definition matchedItems (listItems : list ListItem) (searchKeyword : string)
  : list ListItem :=
  if negb (JS.truthy searchKeyword) then []
  else
    let keyword := JS.toLowerCase searchKeyword in
    JS.sort (compareFn keyword) (filter (isCandidate keyword) listItems).

(** The keys [handleKeydown] distinguishes; any other key falls through its
    [switch]. *)
Inductive Key : Type := ArrowDown | ArrowUp | Enter | Escape | OtherKey.

(** The component's refs, the two scoped resources it acquires (the
    [keydown] listener on [document] and the pending [setTimeout], held with
    the milliseconds left until it fires) and the host calls made so far,
    oldest first. *)
Record State : Type := mkState {
  listItems : list ListItem;
  searchKeyword : string;
  selectedIndex : Z;
  keydownListener : bool;
  pendingTimeout : option nat;
  hostCalls : list HostCall
}.

(** The state [setup] creates: [ref([])], [ref('')], [ref(0)]. *)
Definition initial : State := mkState [] "" 0 false None [].

Definition candidates (st : State) : list ListItem :=
  matchedItems (listItems st) (searchKeyword st).

Definition set_selectedIndex (i : Z) (st : State) : State :=
  mkState (listItems st) (searchKeyword st) i
          (keydownListener st) (pendingTimeout st) (hostCalls st).

Definition call (cs : list HostCall) (st : State) : State :=
  mkState (listItems st) (searchKeyword st) (selectedIndex st)
          (keydownListener st) (pendingTimeout st) (hostCalls st ++ cs).

(** [copySelectedItem]. A negative index passes the guard and reads
    [undefined] from the array, so that [selectedItem.data] throws before any
    host call is made. *)
Definition copySelectedItem (st : State) : State :=
  let n := Z.of_nat (List.length (candidates st)) in
  if ((n >? 0) && (selectedIndex st <? n))%Z then
    if (selectedIndex st <? 0)%Z then st
    else
      match nth_error (candidates st) (Z.to_nat (selectedIndex st)) with
      | Some selectedItem =>
          call [CopyText (data selectedItem); HideMainWindow; OutPlugin] st
      | None => st
      end
  else st.

(** [handleKeydown]. *)
Definition handleKeydown (key : Key) (st : State) : State :=
  match key with
  | ArrowDown =>
      if (selectedIndex st <? Z.of_nat (List.length (candidates st)) - 1)%Z
      then set_selectedIndex (selectedIndex st + 1) st
      else st
  | ArrowUp =>
      if (selectedIndex st >? 0)%Z
      then set_selectedIndex (selectedIndex st - 1) st
      else st
  | Enter => copySelectedItem st
  | Escape => call [OutPlugin] st
  | OtherKey => st
  end.

(** [selectItem], the click handler of one rendered candidate. *)
Definition selectItem (index : nat) (st : State) : State :=
  copySelectedItem (set_selectedIndex (Z.of_nat index) st).

(** [loadData]: [saved] is the parsed blob stored under
    ['list-manager-data'], or [None] when the key is absent. *)
Definition loadData (saved : option (list ListItem)) (st : State) : State :=
  match saved with
  | Some items =>
      mkState items (searchKeyword st) (selectedIndex st)
              (keydownListener st) (pendingTimeout st) (hostCalls st)
  | None => st
  end.

(** The delay passed to [setTimeout] in [onMounted]. *)
Definition settleDelay : nat := 100.

(** The [onMounted] hook; [payload] is [props.enterAction.payload]. *)
Definition onMounted (saved : option (list ListItem)) (payload : string)
    (st : State) : State :=
  let st1 := loadData saved st in
  let st2 :=
    if JS.truthy payload
    then mkState (listItems st1) payload (selectedIndex st1)
                 (keydownListener st1) (pendingTimeout st1) (hostCalls st1)
    else st1 in
  let st3 :=
    mkState (listItems st2) (searchKeyword st2) (selectedIndex st2)
            true (pendingTimeout st2) (hostCalls st2) in
  match candidates st3 with
  | [only] =>
      if String.eqb (JS.toLowerCase (trigger only))
                    (JS.toLowerCase (searchKeyword st3))
      then mkState (listItems st3) (searchKeyword st3) (selectedIndex st3)
                   (keydownListener st3) (Some settleDelay) (hostCalls st3)
      else st3
  | _ => st3
  end.

(** The [onUnmounted] hook: it removes the [keydown] listener and does
    nothing else. *)
Definition onUnmounted (st : State) : State :=
  mkState (listItems st) (searchKeyword st) (selectedIndex st)
          false (pendingTimeout st) (hostCalls st).

(** What can happen to a mounted search view: a key press, a click on the
    rendered candidate at [index], the passing of [ms] milliseconds, and the
    teardown of the component. *)
Inductive Event : Type :=
| Keydown (key : Key)
| Click (index : nat)
| Elapse (ms : nat)
| Unmount.

(** The timer callback [() => copySelectedItem()] runs once the delay has
    fully elapsed. *)
Definition elapse (ms : nat) (st : State) : State :=
  match pendingTimeout st with
  | Some remaining =>
      if (remaining <=? ms)%nat
      then copySelectedItem
             (mkState (listItems st) (searchKeyword st) (selectedIndex st)
                      (keydownListener st) None (hostCalls st))
      else mkState (listItems st) (searchKeyword st) (selectedIndex st)
                   (keydownListener st) (Some (remaining - ms)%nat) (hostCalls st)
  | None => st
  end.

(** Key presses reach [handleKeydown] only while the listener is
    registered; a click needs a rendered candidate, so the view must be
    mounted and [index] must be a position of the candidate list. *)
Definition step (st : State) (ev : Event) : State :=
  match ev with
  | Keydown key => if keydownListener st then handleKeydown key st else st
  | Click index =>
      if keydownListener st && (index <? List.length (candidates st))%nat
      then selectItem index st
      else st
  | Elapse ms => elapse ms st
  | Unmount => onUnmounted st
  end.

Definition run (evs : list Event) (st : State) : State :=
  fold_left step evs st.

End ListSearch.

(* ================================================================== *)
(** ** src/App.vue *)
(* ================================================================== *)

Module App.

(** The activation event the host delivers. *)
Record Action : Type := mkAction {
  code : string;
  payload : string
}.

Fixpoint allChars (p : ascii -> bool) (s : string) : bool :=
  match s with
  | EmptyString => true
  | String c r => p c && allChars p r
  end.

(** [(.+)$] tried at [s]: at least one character, none of them a line
    terminator, up to the end of the input; the group is all of [s]. *)
Definition dotPlusToEnd (s : string) : option string :=
  match s with
  | EmptyString => None
  | String _ _ =>
      if allChars (fun c => negb (JS.isLineTerminator c)) s then Some s else None
  end.

(** [\s+(.+)$] tried at [s], by backtracking as the regular expression
    engine does it: [\s+] is greedy, so one more white-space character is
    taken first, and only when the rest of the pattern fails after that does
    [\s+] stop here and the group is tried on what follows. *)
Fixpoint spacesThenGroup (s : string) : option string :=
  match s with
  | EmptyString => None
  | String c r =>
      if JS.isWhiteSpace c then
        match spacesThenGroup r with
        | Some g => Some g
        | None => dotPlusToEnd r
        end
      else None
  end.

(** [action.payload.match(/^wj\s+(.+)$/)]: [Some] of capture group 1, or
    [None] when the pattern does not match. *)
Definition matchKeyword (payload : string) : option string :=
  match payload with
  | String "w" (String "j" r) => spacesThenGroup r
  | _ => None
  end.

Record State : Type := mkState {
  route : string;
  enterAction : Action
}.

(** The callback registered with [window.utools.onPluginEnter]. *)
Definition onPluginEnter (action : Action) : State :=
  let action' :=
    if String.eqb (code action) "list-search" && JS.truthy (payload action) then
      match matchKeyword (payload action) with
      | Some g =>
          if JS.truthy g then mkAction (code action) (JS.trim g) else action
      | None => action
      end
    else action in
  mkState (code action) action'.

(** The query the search view starts with: [ListSearch] is rendered with
    the stored action as its prop and seeds [searchKeyword] in [onMounted]. *)
Definition initialQuery (saved : option (list ListItem)) (action : Action)
  : string :=
  ListSearch.searchKeyword
    (ListSearch.onMounted saved (payload (enterAction (onPluginEnter action)))
       ListSearch.initial).

End App.

(* ================================================================== *)
(** ** src/ListManager/index.vue *)
(* ================================================================== *)

Module ListManager.

(** The [formData] ref. *)
Record FormData : Type := mkForm {
  formTitle : string;
  formSubtitle : string;
  formTrigger : string;
  formPayload : string
}.

Definition emptyForm : FormData := mkForm "" "" "" "".

(** The messages the component shows with [alert]. *)
Inductive Alert : Type :=
| AlertRequiredFields          (* title and trigger must not be empty *)
| AlertExported (count : nat)  (* exported [count] items *)
| AlertImported (count : nat)  (* imported [count] items *)
| AlertWrongFormat             (* the file does not have a supported format *)
| AlertImportFailed.           (* the import failed, the format may be wrong *)

(** The component's refs, the blob stored under ['list-manager-data'] (as
    the collection it serialises, [None] while the key is absent) and the
    alerts shown so far, oldest first. *)
Record State : Type := mkState {
  listItems : list ListItem;
  showAddForm : bool;
  editingItem : option ListItem;
  searchKeyword : string;
  formData : FormData;
  storage : option (list ListItem);
  alerts : list Alert
}.

Definition initial (stored : option (list ListItem)) : State :=
  mkState [] false None "" emptyForm stored [].

Definition set_listItems (items : list ListItem) (st : State) : State :=
  mkState items (showAddForm st) (editingItem st) (searchKeyword st)
          (formData st) (storage st) (alerts st).

Definition set_formData (fd : FormData) (st : State) : State :=
  mkState (listItems st) (showAddForm st) (editingItem st) (searchKeyword st)
          fd (storage st) (alerts st).

Definition alert (a : Alert) (st : State) : State :=
  mkState (listItems st) (showAddForm st) (editingItem st) (searchKeyword st)
          (formData st) (storage st) (alerts st ++ [a]).

(** [loadData], run by [onMounted]. *)
Definition loadData (st : State) : State :=
  match storage st with
  | Some saved => set_listItems saved st
  | None => st
  end.

(** [saveData]. *)
Definition saveData (st : State) : State :=
  mkState (listItems st) (showAddForm st) (editingItem st) (searchKeyword st)
          (formData st) (Some (listItems st)) (alerts st).

(** [resetForm]. *)
Definition resetForm (st : State) : State :=
  mkState (listItems st) false None (searchKeyword st)
          emptyForm (storage st) (alerts st).

(** [addItem]; [now] is the value [Date.now()] returns. *)
Definition addItem (now : N) (st : State) : State :=
  if negb (JS.truthy (formTitle (formData st)))
     || negb (JS.truthy (formTrigger (formData st)))
  then alert AlertRequiredFields st
  else
    let newItem :=
      mkItem (JS.toString now)
             (formTitle (formData st)) (formSubtitle (formData st))
             (formTrigger (formData st)) (formPayload (formData st)) in
    resetForm (saveData (set_listItems (listItems st ++ [newItem]) st)).

(** [editItem]. *)
Definition editItem (item : ListItem) (st : State) : State :=
  mkState (listItems st) true (Some item) (searchKeyword st)
          (mkForm (title item) (subtitle item) (trigger item) (data item))
          (storage st) (alerts st).

(** [Array.prototype.findIndex], with [None] for -1. *)
Fixpoint findIndex {A : Type} (p : A -> bool) (l : list A) : option nat :=
  match l with
  | [] => None
  | x :: r => if p x then Some 0 else option_map S (findIndex p r)
  end.

(** The assignment [l[index] = x] at a position of [l]. *)
Fixpoint assignAt {A : Type} (index : nat) (x : A) (l : list A) : list A :=
  match l, index with
  | [], _ => []
  | _ :: r, 0 => x :: r
  | y :: r, S i => y :: assignAt i x r
  end.

(** [updateItem]. *)
Definition updateItem (st : State) : State :=
  match editingItem st with
  | None => st
  | Some editing =>
      match findIndex (fun item => String.eqb (id item) (id editing))
                      (listItems st) with
      | Some index =>
          let updated :=
            mkItem (id editing)
                   (formTitle (formData st)) (formSubtitle (formData st))
                   (formTrigger (formData st)) (formPayload (formData st)) in
          resetForm
            (saveData (set_listItems (assignAt index updated (listItems st)) st))
      | None => st
      end
  end.

(** [deleteItem]; [confirmed] is the answer to the [confirm] dialog. *)
Definition deleteItem (itemId : string) (confirmed : bool) (st : State) : State :=
  if confirmed
  then saveData
         (set_listItems
            (filter (fun item => negb (String.eqb (id item) itemId))
                    (listItems st)) st)
  else st.

(** [clearAllData]. *)
Definition clearAllData (confirmed : bool) (st : State) : State :=
  if confirmed then saveData (set_listItems [] st) else st.

(** The values [JSON.parse] returns; a number keeps its literal. *)
#[local] Unset Elimination Schemes.
Inductive JSON : Type :=
| JNull
| JBool (b : bool)
| JNumber (literal : string)
| JString (s : string)
| JArray (elements : list JSON)
| JObject (members : list (string * JSON)).
#[local] Set Elimination Schemes.

(** Property access [o.key] on a parsed object, whose members are listed in
    file order: a later member of the same name replaces an earlier one, and
    [None] stands for [undefined]. *)
Definition getMember (key : string) (members : list (string * JSON))
  : option JSON :=
  fold_left (fun found m => if String.eqb (fst m) key then Some (snd m) else found)
            members None.

(** A [ListItem] as [JSON.stringify] writes it. *)
Definition itemToJSON (item : ListItem) : JSON :=
  JObject [("id", JString (id item)); ("title", JString (title item));
           ("subtitle", JString (subtitle item));
           ("trigger", JString (trigger item)); ("data", JString (data item))].

Definition stringMember (key : string) (j : JSON) : string :=
  match j with
  | JObject members =>
      match getMember key members with
      | Some (JString s) => s
      | _ => EmptyString
      end
  | _ => EmptyString
  end.

(** An imported array element read at the type [ListItem] the component
    gives it. The source assigns the parsed array without inspecting its
    elements; on an object with five string members this reading is exact,
    and the declared type excludes every other value (for those the fields
    read here as empty strings are a convention of the embedding). *)
Definition asListItem (j : JSON) : ListItem :=
  mkItem (stringMember "id" j) (stringMember "title" j)
         (stringMember "subtitle" j) (stringMember "trigger" j)
         (stringMember "data" j).

(** [exportData]: the object handed to [JSON.stringify] and written to the
    downloaded file, and the state after the success alert. [timestamp] is
    [new Date().toISOString()]. The file is held as the JSON value it
    denotes: [JSON.parse] reads back the value [JSON.stringify] wrote. *)
Definition exportData (timestamp : string) (st : State) : State * JSON :=
  let exportData :=
    JObject [("version", JString "1.0"); ("timestamp", JString timestamp);
             ("data", JArray (map itemToJSON (listItems st)))] in
  (alert (AlertExported (List.length (listItems st))) st, exportData).

(** The shape test of [importData]: [Some] of the array to import, or
    [None] when [dataToImport] stays [null]. *)
Definition dataToImport (importedData : JSON) : option (list JSON) :=
  match importedData with
  | JObject members =>
      match getMember "data" members with
      | Some (JArray elements) => Some elements
      | _ => None
      end
  | JArray elements => Some elements
  | _ => None
  end.

(** The [reader.onload] handler of [importData]. [parsed] is the outcome of
    [JSON.parse(content)], [None] when it throws; on [null] the property
    access [importedData.data] throws as well, and both exceptions end in the
    [catch] block. [confirmed] is the answer to the [confirm] dialog. *)
Definition importData (parsed : option JSON) (confirmed : bool) (st : State)
  : State :=
  match parsed with
  | None => alert AlertImportFailed st
  | Some JNull => alert AlertImportFailed st
  | Some importedData =>
      match dataToImport importedData with
      | Some elements =>
          if confirmed
          then alert (AlertImported (List.length elements))
                 (saveData (set_listItems (map asListItem elements) st))
          else st
      | None => alert AlertWrongFormat st
      end
  end.

(** The computed property [filteredItems]. *)
Definition filteredItems (listItems : list ListItem) (searchKeyword : string)
  : list ListItem :=
  if negb (JS.truthy searchKeyword) then listItems
  else
    filter (fun item =>
              JS.includes (JS.toLowerCase (title item))
                          (JS.toLowerCase searchKeyword)
              || JS.includes (JS.toLowerCase (subtitle item))
                             (JS.toLowerCase searchKeyword)
              || JS.includes (JS.toLowerCase (trigger item))
                             (JS.toLowerCase searchKeyword))
           listItems.

End ListManager.

(* ================================================================== *)
(** ** What the specification's words mean on strings *)
(* ================================================================== *)

(** [q] occurs in [s] as a contiguous substring. *)
Definition Contains (s q : string) : Prop :=
  exists pre post : string, s = (pre ++ q ++ post)%string.

(** Case-insensitive containment, equality and prefix: the same relations
    between the lower-cased strings. *)
Definition CIContains (s q : string) : Prop :=
  Contains (JS.toLowerCase s) (JS.toLowerCase q).

Definition CIEquals (s q : string) : Prop :=
  JS.toLowerCase s = JS.toLowerCase q.

Definition CIStartsWith (s q : string) : Prop :=
  exists rest : string, JS.toLowerCase s = (JS.toLowerCase q ++ rest)%string.

(** An entry is a candidate for [q] when one of its three searchable fields
    contains [q] case-insensitively. *)
Definition Matches (q : string) (e : ListItem) : Prop :=
  CIContains (trigger e) q \/ CIContains (title e) q \/ CIContains (subtitle e) q.

(** The boolean reading of a decision, for use in [filter]. *)
Definition holds {P : Prop} (d : {P} + {~ P}) : bool :=
  if d then true else false.

(* ================================================================== *)
(** ** String primitives meet their specifications *)
(* ================================================================== *)

Section StringFacts.

Lemma startsWith_spec (p s : string) :
  JS.startsWith s p = true <-> exists rest, s = (p ++ rest)%string.
Proof.
  revert s; induction p as [| b p IH]; intros s.
  - split; [intros _; exists s; reflexivity | intros _; reflexivity].
  - destruct s as [| a s]; simpl.
    + split; [discriminate | intros [r Hr]; discriminate].
    + rewrite andb_true_iff, Ascii.eqb_eq, IH. split.
      * intros [-> [r ->]]. exists r. reflexivity.
      * intros [r Hr]. injection Hr as -> ->. split; [reflexivity | now exists r].
Qed.

Lemma includes_unfold (s p : string) :
  JS.includes s p =
  JS.startsWith s p ||
  match s with EmptyString => false | String _ s' => JS.includes s' p end.
Proof. destruct s; reflexivity. Qed.

Lemma includes_spec (s p : string) :
  JS.includes s p = true <-> Contains s p.
Proof.
  unfold Contains. split.
  - induction s as [| a s IH]; rewrite includes_unfold, orb_true_iff.
    + intros [H | H]; [| discriminate].
      apply startsWith_spec in H as [r Hr]. exists EmptyString, r. exact Hr.
    + intros [H | H].
      * apply startsWith_spec in H as [r Hr]. exists EmptyString, r. exact Hr.
      * destruct (IH H) as (pre & post & ->).
        exists (String a pre), post. reflexivity.
  - intros (pre & post & ->). induction pre as [| a pre IH].
    + rewrite includes_unfold, orb_true_iff. left.
      apply startsWith_spec. now exists post.
    + simpl. rewrite IH. apply orb_true_r.
Qed.

Lemma startsWith_refl (s : string) : JS.startsWith s s = true.
Proof.
  apply startsWith_spec. exists EmptyString.
  induction s as [| a s IH]; simpl; [reflexivity | now rewrite <- IH].
Qed.

Lemma truthy_false_iff (s : string) : JS.truthy s = false <-> s = EmptyString.
Proof. destruct s; simpl; split; congruence. Qed.

End StringFacts.

(** The source's boolean tests decide the specification's relations. *)
Lemma isCandidate_spec (q : string) (e : ListItem) :
  ListSearch.isCandidate (JS.toLowerCase q) e = true <-> Matches q e.
Proof.
  unfold ListSearch.isCandidate, Matches, CIContains.
  rewrite !orb_true_iff, !includes_spec. tauto.
Qed.

Definition Contains_dec (s q : string) : {Contains s q} + {~ Contains s q}.
Proof.
  destruct (JS.includes s q) eqn:E.
  - left. now apply includes_spec.
  - right. intros H. apply includes_spec in H. congruence.
Defined.

Definition Matches_dec (q : string) (e : ListItem) :
  {Matches q e} + {~ Matches q e}.
Proof.
  destruct (ListSearch.isCandidate (JS.toLowerCase q) e) eqn:E.
  - left. now apply isCandidate_spec.
  - right. intros H. apply isCandidate_spec in H. congruence.
Defined.

Definition CIEquals_dec (s q : string) : {CIEquals s q} + {~ CIEquals s q} :=
  string_dec (JS.toLowerCase s) (JS.toLowerCase q).

Definition CIStartsWith_dec (s q : string) :
  {CIStartsWith s q} + {~ CIStartsWith s q}.
Proof.
  destruct (JS.startsWith (JS.toLowerCase s) (JS.toLowerCase q)) eqn:E.
  - left. now apply startsWith_spec.
  - right. intros H. apply startsWith_spec in H. congruence.
Defined.

Lemma holds_true_iff {P : Prop} (d : {P} + {~ P}) : holds d = true <-> P.
Proof. unfold holds. destruct d; split; intros; congruence || tauto. Qed.

Lemma holds_Matches (q : string) (e : ListItem) :
  holds (Matches_dec q e) = ListSearch.isCandidate (JS.toLowerCase q) e.
Proof.
  destruct (ListSearch.isCandidate (JS.toLowerCase q) e) eqn:E.
  - apply holds_true_iff, isCandidate_spec, E.
  - destruct (holds (Matches_dec q e)) eqn:H; [| reflexivity].
    apply holds_true_iff, isCandidate_spec in H. congruence.
Qed.

(* ================================================================== *)
(** ** A stable sort on three rank classes *)
(* ================================================================== *)

Section StableSort.

Variable A : Type.
Variable cmp : A -> A -> Z.
Variable rank : A -> nat.
Hypothesis cmp_rank : forall a b, (cmp a b <=? 0)%Z = (rank a <=? rank b)%nat.
Hypothesis rank_le_2 : forall a, (rank a <= 2)%nat.

Definition inClass (k : nat) (a : A) : bool := (rank a =? k)%nat.

Lemma insert_skip (x : A) (pre post : list A) :
  Forall (fun y => (rank y < rank x)%nat) pre ->
  JS.insert cmp x (pre ++ post) = pre ++ JS.insert cmp x post.
Proof.
  induction 1 as [| y pre Hy _ IH]; simpl; [reflexivity |].
  rewrite cmp_rank. destruct (Nat.leb_spec (rank x) (rank y)); [lia |].
  now rewrite IH.
Qed.

Lemma insert_front (x : A) (post : list A) :
  Forall (fun y => (rank x <= rank y)%nat) post ->
  JS.insert cmp x post = x :: post.
Proof.
  destruct 1 as [| y post Hy _]; simpl; [reflexivity |].
  rewrite cmp_rank. destruct (Nat.leb_spec (rank x) (rank y)); [reflexivity | lia].
Qed.

Lemma Forall_inClass (k : nat) (l : list A) :
  Forall (fun y => rank y = k) (filter (inClass k) l).
Proof.
  apply Forall_forall. intros y Hy. apply filter_In in Hy as [_ Hy].
  now apply Nat.eqb_eq.
Qed.

Lemma filter_cons_class (k : nat) (x : A) (l : list A) :
  filter (inClass k) (x :: l) =
  if (rank x =? k)%nat then x :: filter (inClass k) l else filter (inClass k) l.
Proof. reflexivity. Qed.

Lemma sort_three_classes (l : list A) :
  JS.sort cmp l =
  filter (inClass 0) l ++ filter (inClass 1) l ++ filter (inClass 2) l.
Proof.
  induction l as [| x l IH]; [reflexivity |].
  change (JS.sort cmp (x :: l)) with (JS.insert cmp x (JS.sort cmp l)).
  rewrite IH. clear IH. rewrite !filter_cons_class.
  pose proof (rank_le_2 x) as Hx.
  pose proof (Forall_inClass 0 l) as F0.
  pose proof (Forall_inClass 1 l) as F1.
  pose proof (Forall_inClass 2 l) as F2.
  destruct (rank x) as [| [| [| r]]] eqn:Rx; simpl; try lia.
  - apply insert_front. rewrite Rx.
    rewrite !Forall_app. repeat split; eapply Forall_impl; eauto; simpl; lia.
  - rewrite insert_skip.
    2:{ eapply Forall_impl; [| exact F0]. simpl. lia. }
    f_equal. apply insert_front. rewrite Rx.
    rewrite !Forall_app. split; eapply Forall_impl; eauto; simpl; lia.
  - rewrite insert_skip.
    2:{ eapply Forall_impl; [| exact F0]. simpl. lia. }
    f_equal. rewrite insert_skip.
    2:{ eapply Forall_impl; [| exact F1]. simpl. lia. }
    f_equal. apply insert_front. rewrite Rx.
    eapply Forall_impl; [| exact F2]. simpl. lia.
Qed.

Lemma sort_Permutation (l : list A) : Permutation (JS.sort cmp l) l.
Proof.
  assert (Hins : forall x m, Permutation (JS.insert cmp x m) (x :: m)).
  { intros x m. induction m as [| y m IH]; simpl; [reflexivity |].
    destruct (cmp x y <=? 0)%Z; [reflexivity |].
    rewrite IH. apply perm_swap. }
  induction l as [| x l IH]; simpl; [reflexivity |].
  rewrite Hins. now constructor.
Qed.

End StableSort.

(* ================================================================== *)
(** ** MatchEngine: candidates and ranking *)
(* ================================================================== *)

(** The rank class of an entry for a query: 0 when its trigger equals the
    query, 1 when the trigger only starts with it, 2 otherwise (all three
    case-insensitively). *)
Definition rankOf (q : string) (e : ListItem) : nat :=
  if CIEquals_dec (trigger e) q then 0
  else if CIStartsWith_dec (trigger e) q then 1
  else 2.

Lemma eqb_CIEquals (s q : string) :
  String.eqb (JS.toLowerCase s) (JS.toLowerCase q) = holds (CIEquals_dec s q).
Proof.
  unfold holds, CIEquals_dec.
  destruct (string_dec _ _) as [E | E].
  - now apply String.eqb_eq.
  - now apply String.eqb_neq.
Qed.

Lemma startsWith_CIStartsWith (s q : string) :
  JS.startsWith (JS.toLowerCase s) (JS.toLowerCase q)
  = holds (CIStartsWith_dec s q).
Proof.
  destruct (JS.startsWith _ _) eqn:E; symmetry.
  - apply holds_true_iff, startsWith_spec, E.
  - destruct (holds _) eqn:H; [| reflexivity].
    apply holds_true_iff, startsWith_spec in H. congruence.
Qed.

Lemma CIEquals_CIStartsWith (s q : string) : CIEquals s q -> CIStartsWith s q.
Proof.
  unfold CIEquals, CIStartsWith. intros ->.
  apply startsWith_spec, startsWith_refl.
Qed.

(** The comparator is the comparison of rank classes, hence consistent. *)
Lemma compareFn_rank (q : string) (a b : ListItem) :
  (ListSearch.compareFn (JS.toLowerCase q) a b <=? 0)%Z
  = (rankOf q a <=? rankOf q b)%nat.
Proof.
  unfold ListSearch.compareFn, rankOf; cbv zeta.
  rewrite !eqb_CIEquals, !startsWith_CIStartsWith. unfold holds.
  destruct (CIEquals_dec (trigger a) q) as [Ea | Ea],
           (CIEquals_dec (trigger b) q) as [Eb | Eb];
  destruct (CIStartsWith_dec (trigger a) q) as [Sa | Sa],
           (CIStartsWith_dec (trigger b) q) as [Sb | Sb];
  try reflexivity;
  exfalso; auto using CIEquals_CIStartsWith.
Qed.

Lemma rankOf_le_2 (q : string) (e : ListItem) : rankOf q e <= 2.
Proof.
  unfold rankOf.
  destruct (CIEquals_dec _ _); [lia |]. destruct (CIStartsWith_dec _ _); lia.
Qed.

Lemma matchedItems_nonempty_query (items : list ListItem) (c : ascii) (q' : string) :
  ListSearch.matchedItems items (String c q') =
  JS.sort (ListSearch.compareFn (JS.toLowerCase (String c q')))
    (filter (fun e => holds (Matches_dec (String c q') e)) items).
Proof.
  unfold ListSearch.matchedItems. cbn [JS.truthy negb].
  cbv zeta. f_equal. apply filter_ext. intros e. now rewrite holds_Matches.
Qed.

(** C1. An empty query yields no candidate at all; for a non-empty query
    the result holds exactly the entries of the collection (with their
    multiplicities) whose trigger, title or subtitle contains the query as a
    case-insensitive substring. *)
Theorem matchedItems_candidates (items : list ListItem) :
  ListSearch.matchedItems items "" = [] /\
  forall (c : ascii) (q' : string),
    Permutation (ListSearch.matchedItems items (String c q'))
                (filter (fun e => holds (Matches_dec (String c q') e)) items) /\
    forall e, In e (ListSearch.matchedItems items (String c q')) <->
              In e items /\ Matches (String c q') e.
Proof.
  split; [reflexivity |]. intros c q'.
  rewrite matchedItems_nonempty_query.
  assert (P := sort_Permutation ListItem
                 (ListSearch.compareFn (JS.toLowerCase (String c q')))
                 (filter (fun e => holds (Matches_dec (String c q') e)) items)).
  split; [exact P |]. intros e. split.
  - intros H. apply (Permutation_in _ P), filter_In in H.
    now rewrite holds_true_iff in H.
  - intros H. apply (Permutation_in _ (Permutation_sym P)), filter_In.
    now rewrite holds_true_iff.
Qed.

(** C2. For a non-empty query the output is three consecutive blocks: the
    candidates whose trigger equals the query, then those whose trigger
    starts with it without being equal, then all remaining candidates; each
    block lists its entries in collection order. *)
Theorem matchedItems_ranking (items : list ListItem) (c : ascii) (q' : string) :
  let q := String c q' in
  let cands := filter (fun e => holds (Matches_dec q e)) items in
  ListSearch.matchedItems items q =
    filter (fun e => holds (CIEquals_dec (trigger e) q)) cands
    ++ filter (fun e => negb (holds (CIEquals_dec (trigger e) q))
                        && holds (CIStartsWith_dec (trigger e) q)) cands
    ++ filter (fun e => negb (holds (CIEquals_dec (trigger e) q))
                        && negb (holds (CIStartsWith_dec (trigger e) q))) cands.
Proof.
  intros q cands. subst q cands.
  rewrite matchedItems_nonempty_query.
  rewrite (sort_three_classes ListItem _ (rankOf (String c q'))
             (compareFn_rank (String c q')) (rankOf_le_2 (String c q'))).
  f_equal; [| f_equal]; apply filter_ext; intros e;
    unfold inClass, rankOf, holds;
    destruct (CIEquals_dec _ _); try reflexivity;
    destruct (CIStartsWith_dec _ _); reflexivity.
Qed.

(** Scenario A of the specification, run on the embedding. *)
Example scenario_A :
  map trigger
    (ListSearch.matchedItems
       [mkItem "1" "first" "" "email" "d1"; mkItem "2" "second" "" "em" "d2"]
       "em")
  = ["em"; "email"].
Proof. vm_compute. reflexivity. Qed.

(* ================================================================== *)
(** ** SelectionController: the index invariant and the auto-commit timer *)
(* ================================================================== *)

Section SelectionController.

Import ListSearch.

(** The selected index is a position of the candidate list, and is 0 when
    there is no candidate. *)
Definition InRange (st : State) : Prop :=
  let n := Z.of_nat (List.length (candidates st)) in
  ((0 < n -> 0 <= selectedIndex st <= n - 1) /\
   (n = 0 -> selectedIndex st = 0))%Z.

(** The state right after [onMounted] ran on the fresh component. *)
Definition mounted (saved : option (list ListItem)) (payload : string) : State :=
  onMounted saved payload initial.

Lemma copySelectedItem_frame (st : State) :
  listItems (copySelectedItem st) = listItems st /\
  searchKeyword (copySelectedItem st) = searchKeyword st /\
  selectedIndex (copySelectedItem st) = selectedIndex st /\
  keydownListener (copySelectedItem st) = keydownListener st /\
  pendingTimeout (copySelectedItem st) = pendingTimeout st.
Proof.
  unfold copySelectedItem.
  destruct (_ && _); [| tauto].
  destruct (selectedIndex st <? 0)%Z; [tauto |].
  destruct (nth_error _ _); simpl; tauto.
Qed.

Lemma candidates_ext (st st' : State) :
  listItems st' = listItems st -> searchKeyword st' = searchKeyword st ->
  candidates st' = candidates st.
Proof. unfold candidates. now intros -> ->. Qed.

Lemma copySelectedItem_candidates (st : State) :
  candidates (copySelectedItem st) = candidates st.
Proof. apply candidates_ext; apply copySelectedItem_frame. Qed.

Lemma step_candidates (st : State) (ev : Event) :
  candidates (step st ev) = candidates st.
Proof.
  destruct ev as [key | index | ms |]; simpl.
  - destruct (keydownListener st); [| reflexivity].
    destruct key; simpl; try reflexivity.
    + now destruct (_ <? _)%Z.
    + now destruct (_ >? _)%Z.
    + apply copySelectedItem_candidates.
  - destruct (_ && _); [| reflexivity].
    unfold selectItem. now rewrite copySelectedItem_candidates.
  - unfold elapse. destruct (pendingTimeout st); [| reflexivity].
    destruct (_ <=? _)%nat; [| reflexivity].
    now rewrite copySelectedItem_candidates.
  - reflexivity.
Qed.

Lemma step_InRange (st : State) (ev : Event) :
  InRange st -> InRange (step st ev).
Proof.
  unfold InRange. cbv zeta. rewrite step_candidates.
  set (n := Z.of_nat (List.length (candidates st))). intros Hst.
  destruct ev as [key | index | ms |]; simpl.
  - destruct (keydownListener st); [| exact Hst].
    destruct key; simpl; try exact Hst.
    + fold n. destruct (Z.ltb_spec (selectedIndex st) (n - 1)); simpl; lia.
    + destruct (selectedIndex st >? 0)%Z eqn:E; simpl; [| exact Hst].
      apply Z.gtb_lt in E. lia.
    + destruct (copySelectedItem_frame st) as (_ & _ & -> & _). exact Hst.
  - destruct (keydownListener st); simpl; [| exact Hst].
    destruct (Nat.ltb_spec index (List.length (candidates st))); [| exact Hst].
    unfold selectItem.
    destruct (copySelectedItem_frame (set_selectedIndex (Z.of_nat index) st))
      as (_ & _ & -> & _).
    simpl. unfold n. lia.
  - unfold elapse. destruct (pendingTimeout st); [| exact Hst].
    destruct (_ <=? _)%nat; [| exact Hst].
    match goal with |- context [copySelectedItem ?s] =>
      destruct (copySelectedItem_frame s) as (_ & _ & -> & _) end.
    exact Hst.
  - exact Hst.
Qed.

Lemma run_InRange (evs : list Event) (st : State) :
  InRange st -> InRange (run evs st).
Proof.
  revert st. induction evs as [| ev evs IH]; intros st Hst; [exact Hst |].
  apply IH, step_InRange, Hst.
Qed.

(** What [onMounted] leaves behind on the fresh component. *)
Lemma mounted_shape (saved : option (list ListItem)) (payload : string) :
  let items := match saved with Some l => l | None => [] end in
  mounted saved payload =
  mkState items payload 0 true
    match matchedItems items payload with
    | [only] =>
        if String.eqb (JS.toLowerCase (trigger only)) (JS.toLowerCase payload)
        then Some settleDelay else None
    | _ => None
    end [].
Proof.
  unfold mounted, onMounted, candidates, initial.
  destruct saved as [items |], payload as [| c p]; simpl;
    repeat match goal with
           | |- context [match ?x with _ => _ end] => destruct x; simpl
           end; reflexivity.
Qed.

Lemma mounted_InRange (saved : option (list ListItem)) (payload : string) :
  InRange (mounted saved payload).
Proof.
  rewrite mounted_shape. unfold InRange, candidates. simpl. lia.
Qed.

(** C4. In every state the mounted search view can reach, whatever keys
    were pressed, the selected index is a position of the candidate list when
    that list is non-empty and is 0 when it is empty; move-down goes one
    step towards the last position and stops there, move-up goes one step
    towards 0 and stops there. *)
Theorem selectedIndex_in_range
    (saved : option (list ListItem)) (payload : string) (evs : list Event) :
  let st := run evs (mounted saved payload) in
  let n := Z.of_nat (List.length (candidates st)) in
  ((0 < n -> 0 <= selectedIndex st <= n - 1) /\
   (n = 0 -> selectedIndex st = 0) /\
   selectedIndex (handleKeydown ArrowDown st)
     = Z.min (selectedIndex st + 1) (Z.max 0 (n - 1)) /\
   selectedIndex (handleKeydown ArrowUp st)
     = Z.max (selectedIndex st - 1) 0)%Z.
Proof.
  intros st n.
  assert (H : InRange st) by apply run_InRange, mounted_InRange.
  unfold InRange in H. cbv zeta in H. fold n in H.
  destruct H as [Hpos Hzero]. repeat split; try tauto; try lia.
  - simpl. fold n.
    destruct (Z.ltb_spec (selectedIndex st) (n - 1)); simpl; lia.
  - simpl. destruct (selectedIndex st >? 0)%Z eqn:E; simpl.
    + apply Z.gtb_lt in E. lia.
    + rewrite Z.gtb_ltb in E. apply Z.ltb_ge in E. lia.
Qed.

(** The same bounds on a run of arrow keys alone, checked on scenario A's
    two candidates: four move-downs stop at the last position, five move-ups
    stop at 0. *)
Example arrows_clamp :
  let st0 := mounted (Some [mkItem "1" "first" "" "email" "d1";
                            mkItem "2" "second" "" "em" "d2"]) "em" in
  selectedIndex (run (repeat (Keydown ArrowDown) 4) st0) = 1%Z /\
  selectedIndex
    (run (repeat (Keydown ArrowDown) 4 ++ repeat (Keydown ArrowUp) 5) st0) = 0%Z.
Proof. vm_compute. split; reflexivity. Qed.

Lemma fired_commit (items : list ListItem) (kw : string) (e : ListItem)
    (listening : bool) :
  matchedItems items kw = [e] ->
  copySelectedItem (mkState items kw 0 listening None [])
  = mkState items kw 0 listening None
      [CopyText (data e); HideMainWindow; OutPlugin].
Proof.
  intros H. unfold copySelectedItem, candidates. simpl. rewrite H. reflexivity.
Qed.

(** C3, as the code has it. When the seeded query leaves exactly one
    candidate and that candidate's trigger equals the query ignoring case,
    mounting schedules the commit 100 ms ahead: no host call is made before
    the delay has elapsed, and once it has the candidate's payload is copied,
    the window hidden and the plugin left. Teardown removes the key listener
    only: when the component is unmounted inside the delay, no host call has
    been made by then, and the pending commit still fires when the delay
    ends. *)
Theorem autoCommit_after_settle_delay
    (saved : option (list ListItem)) (payload : string) (e : ListItem) :
  let st0 := mounted saved payload in
  let commit := [CopyText (data e); HideMainWindow; OutPlugin] in
  candidates st0 = [e] ->
  CIEquals (trigger e) (searchKeyword st0) ->
  pendingTimeout st0 = Some 100 /\
  hostCalls st0 = [] /\
  (forall t, t < 100 -> hostCalls (run [Elapse t] st0) = []) /\
  hostCalls (run [Elapse 100] st0) = commit /\
  (forall t, t < 100 ->
     keydownListener (run [Elapse t; Unmount] st0) = false /\
     hostCalls (run [Elapse t; Unmount] st0) = [] /\
     hostCalls (run [Elapse t; Unmount; Elapse (100 - t)] st0) = commit).
Proof.
  intros st0 commit. subst st0 commit. rewrite mounted_shape. cbv zeta.
  set (items := match saved with Some l => l | None => [] end).
  unfold candidates at 1. simpl listItems. simpl searchKeyword.
  intros Hc He. rewrite Hc.
  unfold CIEquals in He. apply String.eqb_eq in He. rewrite He.
  unfold settleDelay.
  assert (Hlt : forall t, t < 100 ->
            elapse t (mkState items payload 0 true (Some 100) [])
            = mkState items payload 0 true (Some (100 - t)) []).
  { intros t Ht. unfold elapse. cbn [pendingTimeout].
    destruct (Nat.leb_spec 100 t); [lia | reflexivity]. }
  assert (Hfire : elapse 100 (mkState items payload 0 true (Some 100) [])
            = mkState items payload 0 true None
                [CopyText (data e); HideMainWindow; OutPlugin]).
  { unfold elapse. cbn [pendingTimeout]. rewrite Nat.leb_refl.
    now apply fired_commit. }
  unfold run. cbn [fold_left step]. rewrite Hfire.
  split; [reflexivity |]. split; [reflexivity |].
  split; [intros t Ht; now rewrite Hlt |]. split; [reflexivity |].
  intros t Ht. rewrite (Hlt t Ht). repeat split.
  unfold onUnmounted, elapse. cbn [pendingTimeout]. rewrite Nat.leb_refl.
  cbn [listItems searchKeyword selectedIndex keydownListener hostCalls].
  now rewrite (fired_commit _ _ e).
Qed.

Definition mailEntry : ListItem :=
  mkItem "1700000000000" "Mail address" "work" "em" "me@example.org".

Lemma autoCommit_after_settle_delay_witness :
  pendingTimeout (mounted (Some [mailEntry]) "EM") = Some 100 /\
  hostCalls (mounted (Some [mailEntry]) "EM") = [] /\
  (forall t, t < 100 ->
     hostCalls (run [Elapse t] (mounted (Some [mailEntry]) "EM")) = []) /\
  hostCalls (run [Elapse 100] (mounted (Some [mailEntry]) "EM"))
    = [CopyText "me@example.org"; HideMainWindow; OutPlugin] /\
  (forall t, t < 100 ->
     keydownListener (run [Elapse t; Unmount] (mounted (Some [mailEntry]) "EM"))
       = false /\
     hostCalls (run [Elapse t; Unmount] (mounted (Some [mailEntry]) "EM")) = [] /\
     hostCalls (run [Elapse t; Unmount; Elapse (100 - t)]
                    (mounted (Some [mailEntry]) "EM"))
       = [CopyText "me@example.org"; HideMainWindow; OutPlugin]).
Proof.
  apply (autoCommit_after_settle_delay (Some [mailEntry]) "EM" mailEntry);
    vm_compute; reflexivity.
Defined.

(** C3 as the specification states it fails: the session ends 40 ms into
    the delay, the listener is gone, and 60 ms later the commit is made all
    the same. *)
Lemma autoCommit_not_cancelled_on_teardown :
  let st0 := mounted (Some [mailEntry]) "EM" in
  candidates st0 = [mailEntry] /\
  CIEquals (trigger mailEntry) (searchKeyword st0) /\
  hostCalls (run [Elapse 40; Unmount] st0) = [] /\
  hostCalls (run [Elapse 40; Unmount; Elapse 60] st0)
    = [CopyText "me@example.org"; HideMainWindow; OutPlugin] /\
  hostCalls (run [Elapse 40; Unmount; Elapse 60] st0) <> [].
Proof. vm_compute. repeat split; discriminate. Qed.

End SelectionController.

(* ================================================================== *)
(** ** ItemStore: update and add *)
(* ================================================================== *)

Section ItemStore.

Import ListManager.

Lemma findIndex_none {A : Type} (p : A -> bool) (l : list A) :
  (forall y, In y l -> p y = false) -> findIndex p l = None.
Proof.
  induction l as [| x l IH]; intros H; simpl; [reflexivity |].
  rewrite (H x (or_introl eq_refl)), IH; [reflexivity |].
  intros y Hy. apply H. now right.
Qed.

Lemma findIndex_first {A : Type} (p : A -> bool) (pre : list A) (x : A)
    (post : list A) :
  (forall y, In y pre -> p y = false) -> p x = true ->
  findIndex p (pre ++ x :: post) = Some (List.length pre).
Proof.
  intros Hpre Hx. induction pre as [| y pre IH]; simpl.
  - now rewrite Hx.
  - rewrite (Hpre y (or_introl eq_refl)), IH; [reflexivity |].
    intros z Hz. apply Hpre. now right.
Qed.

Lemma assignAt_middle {A : Type} (pre : list A) (x y : A) (post : list A) :
  assignAt (List.length pre) y (pre ++ x :: post) = pre ++ y :: post.
Proof. induction pre as [| z pre IH]; simpl; [reflexivity | now rewrite IH]. Qed.

Lemma assignAt_length {A : Type} (index : nat) (y : A) (l : list A) :
  List.length (assignAt index y l) = List.length l.
Proof.
  revert index. induction l as [| x l IH]; intros [| i]; simpl; auto.
Qed.

(** C5, as the code has it. With an entry under edit whose id no entry of
    the collection carries, [updateItem] does nothing at all: collection,
    stored blob, form and alerts stay as they were, so no error is reported.
    Otherwise the first entry carrying that id is replaced where it stands
    by an entry with the same id and the form's four fields, every other
    entry and the order are kept, and the collection is stored. *)
Theorem updateItem_in_place (st : State) (editing : ListItem) :
  editingItem st = Some editing ->
  ((forall item, In item (listItems st) -> id item <> id editing) ->
     updateItem st = st) /\
  (forall pre old post,
     listItems st = pre ++ old :: post ->
     (forall item, In item pre -> id item <> id editing) ->
     id old = id editing ->
     listItems (updateItem st)
       = pre ++ mkItem (id old)
                  (formTitle (formData st)) (formSubtitle (formData st))
                  (formTrigger (formData st)) (formPayload (formData st))
             :: post /\
     storage (updateItem st) = Some (listItems (updateItem st)) /\
     alerts (updateItem st) = alerts st).
Proof.
  intros Hed. unfold updateItem. rewrite Hed. split.
  - intros Habsent. rewrite findIndex_none; [reflexivity |].
    intros y Hy. apply String.eqb_neq. now apply Habsent.
  - intros pre old post Hl Hpre Hold. rewrite Hl.
    rewrite findIndex_first.
    + simpl. rewrite assignAt_middle, Hold. repeat split.
    + intros y Hy. apply String.eqb_neq. now apply Hpre.
    + now apply String.eqb_eq.
Qed.

Definition twoEntries : list ListItem :=
  [mkItem "1" "Mail" "" "em" "me@example.org";
   mkItem "2" "Phone" "" "ph" "555-0100"].

(** The management view with [twoEntries] loaded and [entry] under edit,
    the form holding new text for it. *)
Definition editing (entry : ListItem) : State :=
  set_formData (mkForm "Telephone" "office" "tel" "555-0199")
    (editItem entry (loadData (initial (Some twoEntries)))).

Lemma updateItem_in_place_witness :
  ((forall item, In item (listItems (editing (mkItem "2" "Phone" "" "ph" "555-0100"))) ->
      id item <> "2") ->
     updateItem (editing (mkItem "2" "Phone" "" "ph" "555-0100"))
     = editing (mkItem "2" "Phone" "" "ph" "555-0100")) /\
  (forall pre old post,
     twoEntries = pre ++ old :: post ->
     (forall item, In item pre -> id item <> "2") ->
     id old = "2" ->
     listItems (updateItem (editing (mkItem "2" "Phone" "" "ph" "555-0100")))
       = pre ++ mkItem (id old) "Telephone" "office" "tel" "555-0199" :: post /\
     storage (updateItem (editing (mkItem "2" "Phone" "" "ph" "555-0100")))
       = Some (listItems
                 (updateItem (editing (mkItem "2" "Phone" "" "ph" "555-0100")))) /\
     alerts (updateItem (editing (mkItem "2" "Phone" "" "ph" "555-0100"))) = []).
Proof.
  exact (updateItem_in_place
           (editing (mkItem "2" "Phone" "" "ph" "555-0100"))
           (mkItem "2" "Phone" "" "ph" "555-0100") eq_refl).
Defined.

Example updateItem_found :
  listItems (updateItem (editing (mkItem "2" "Phone" "" "ph" "555-0100")))
  = [mkItem "1" "Mail" "" "em" "me@example.org";
     mkItem "2" "Telephone" "office" "tel" "555-0199"].
Proof. reflexivity. Qed.

(** C5 as the specification states it fails: the entry under edit carries
    an id the collection does not hold (it was deleted meanwhile), and
    [updateItem] returns the state it was given; no alert is shown, so
    nothing tells the caller that the update found no target. *)
Lemma updateItem_absent_id_is_silent :
  let st := editing (mkItem "9" "Gone" "" "g" "") in
  (forall item, In item (listItems st) -> id item <> "9") /\
  updateItem st = st /\
  alerts (updateItem st) = [].
Proof.
  cbv zeta. split; [| split; reflexivity].
  intros item [<- | [<- | []]]; discriminate.
Qed.

End ItemStore.

Section ItemStoreAdd.

Import ListManager.

Lemma truthy_true_iff (s : string) : JS.truthy s = true <-> s <> EmptyString.
Proof. destruct s; simpl; split; congruence. Qed.

(** C6, as the code has it. With an empty title or an empty trigger,
    [addItem] shows the required-fields alert and changes nothing else. With
    both filled in, it appends one entry at the end of the collection, built
    from the form's four fields and carrying the decimal digits of the clock
    reading as its id, and stores the collection. The ids stay pairwise
    distinct when no entry already carries those digits as its id; nothing in
    [addItem] checks that. *)
Theorem addItem_appends (now : N) (st : State) :
  let fd := formData st in
  let newItem :=
    mkItem (JS.toString now) (formTitle fd) (formSubtitle fd)
           (formTrigger fd) (formPayload fd) in
  (formTitle fd = "" \/ formTrigger fd = "" ->
     addItem now st = alert AlertRequiredFields st /\
     listItems (addItem now st) = listItems st /\
     storage (addItem now st) = storage st) /\
  (formTitle fd <> "" -> formTrigger fd <> "" ->
     listItems (addItem now st) = listItems st ++ [newItem] /\
     storage (addItem now st) = Some (listItems st ++ [newItem]) /\
     alerts (addItem now st) = alerts st /\
     (NoDup (map id (listItems st)) ->
      (forall item, In item (listItems st) -> id item <> JS.toString now) ->
      NoDup (map id (listItems (addItem now st))))).
Proof.
  intros fd newItem. subst fd newItem. unfold addItem. split.
  - intros H.
    assert (E : negb (JS.truthy (formTitle (formData st)))
                || negb (JS.truthy (formTrigger (formData st))) = true).
    { destruct H as [-> | ->]; simpl; [reflexivity | apply orb_true_r]. }
    rewrite E. repeat split.
  - intros Ht Hg.
    apply truthy_true_iff in Ht, Hg. rewrite Ht, Hg. simpl.
    repeat split. intros Hnd Hfresh.
    rewrite map_app. simpl.
    apply NoDup_app.
    + exact Hnd.
    + constructor; [intros [] | constructor].
    + intros x Hx [<- | []].
      apply in_map_iff in Hx as (item & Hid & Hin).
      now apply (Hfresh item Hin).
Qed.

(** Scenario: a first entry is added to the empty store. *)
Example addItem_first :
  listItems
    (addItem 1700000000000
       (set_formData (mkForm "Mail" "" "em" "me@example.org") (initial None)))
  = [mkItem "1700000000000" "Mail" "" "em" "me@example.org"].
Proof. vm_compute. reflexivity. Qed.

(** C6 as the specification states it fails: two entries added while the
    clock shows the same millisecond receive the same id. *)
Lemma addItem_id_not_unique :
  let st1 :=
    addItem 1700000000000
      (set_formData (mkForm "Mail" "" "em" "me@example.org") (initial None)) in
  let st2 :=
    addItem 1700000000000
      (set_formData (mkForm "Phone" "" "ph" "555-0100") st1) in
  map id (listItems st2) = ["1700000000000"; "1700000000000"] /\
  ~ NoDup (map id (listItems st2)).
Proof.
  cbv zeta.
  assert (E : map id
                (listItems
                   (addItem 1700000000000
                      (set_formData (mkForm "Phone" "" "ph" "555-0100")
                         (addItem 1700000000000
                            (set_formData (mkForm "Mail" "" "em" "me@example.org")
                               (initial None))))))
              = ["1700000000000"; "1700000000000"])
    by (vm_compute; reflexivity).
  split; [exact E |]. rewrite E. intros H.
  apply NoDup_cons_iff in H as [H _]. apply H. now left.
Qed.

End ItemStoreAdd.

(* ================================================================== *)
(** ** Codec: export and import *)
(* ================================================================== *)

Section Codec.

Import ListManager.

(** The specification's two accepted shapes: [j] is an object carrying the
    sequence [elements] under [data], or [j] is that sequence itself. *)
Definition Carries (j : JSON) (elements : list JSON) : Prop :=
  (exists members,
      j = JObject members /\ getMember "data" members = Some (JArray elements))
  \/ j = JArray elements.

Lemma dataToImport_spec (j : JSON) (elements : list JSON) :
  dataToImport j = Some elements <-> Carries j elements.
Proof.
  unfold Carries. split.
  - destruct j as [| b | n | s | l | members]; simpl; try discriminate.
    + intros [= ->]. now right.
    + destruct (getMember "data" members) as [[| | | | l |] |] eqn:E;
        try discriminate.
      intros [= ->]. left. now exists members.
  - intros [(members & -> & H) | ->]; simpl; [now rewrite H | reflexivity].
Qed.

Lemma asListItem_itemToJSON (item : ListItem) :
  asListItem (itemToJSON item) = item.
Proof. destruct item. reflexivity. Qed.

Lemma map_asListItem_itemToJSON (items : list ListItem) :
  map asListItem (map itemToJSON items) = items.
Proof.
  rewrite map_map. rewrite <- (map_id items) at 2.
  apply map_ext. exact asListItem_itemToJSON.
Qed.

(** C7. Exporting leaves the collection and the stored blob as they were,
    and importing the exported snapshot (and confirming the dialog), from
    whatever state the view is in by then, installs the exported collection
    again: the same entries with the same five fields in the same order. *)
Theorem import_export_roundtrip (timestamp : string) (st live : State) :
  let exported := exportData timestamp st in
  listItems (fst exported) = listItems st /\
  storage (fst exported) = storage st /\
  listItems (importData (Some (snd exported)) true live) = listItems st /\
  storage (importData (Some (snd exported)) true live) = Some (listItems st).
Proof.
  cbv zeta. unfold exportData, importData. simpl.
  rewrite map_asListItem_itemToJSON. repeat split.
Qed.

(** C8. A parsed file that is an object carrying a [data] sequence, or a
    bare sequence, is accepted: once the dialog is confirmed, that sequence
    becomes the whole collection and is stored (a declined dialog leaves
    everything as it was). Every other parsed value, and a file that does
    not parse, is answered with a format alert and leaves the collection and
    the stored blob untouched. *)
Theorem importData_shapes (st : State) :
  (forall j elements,
     Carries j elements ->
     importData (Some j) true st
       = alert (AlertImported (List.length elements))
           (saveData (set_listItems (map asListItem elements) st)) /\
     listItems (importData (Some j) true st) = map asListItem elements /\
     storage (importData (Some j) true st) = Some (map asListItem elements) /\
     importData (Some j) false st = st) /\
  (forall j confirmed,
     (forall elements, ~ Carries j elements) ->
     (importData (Some j) confirmed st = alert AlertWrongFormat st \/
      importData (Some j) confirmed st = alert AlertImportFailed st) /\
     listItems (importData (Some j) confirmed st) = listItems st /\
     storage (importData (Some j) confirmed st) = storage st) /\
  (forall confirmed,
     importData None confirmed st = alert AlertImportFailed st).
Proof.
  split; [| split].
  - intros j elements H. apply dataToImport_spec in H.
    assert (Hj : j <> JNull) by (intros ->; discriminate).
    unfold importData. destruct j; try congruence; rewrite H; repeat split.
  - intros j confirmed H.
    assert (E : dataToImport j = None).
    { destruct (dataToImport j) as [elements |] eqn:E; [| reflexivity].
      apply dataToImport_spec in E. now destruct (H elements). }
    unfold importData. destruct j; try rewrite E; simpl; auto.
  - reflexivity.
Qed.

(** Scenario D of the specification: the snapshot object without a
    timestamp replaces the collection by its single entry. *)
Example scenario_D :
  listItems
    (importData
       (Some (JObject
                [("version", JString "1.0");
                 ("data",
                  JArray [JObject [("id", JString "1"); ("title", JString "A");
                                   ("trigger", JString "a");
                                   ("subtitle", JString "");
                                   ("data", JString "")]])]))
       true (loadData (initial (Some twoEntries))))
  = [mkItem "1" "A" "" "a" ""].
Proof. reflexivity. Qed.

(** C10. With no keyword the management list is the collection itself;
    with a keyword it is the collection filtered, in collection order, down
    to the entries whose title, subtitle or trigger contains the keyword as a
    case-insensitive substring. *)
Theorem filteredItems_spec (items : list ListItem) :
  filteredItems items "" = items /\
  ListSearch.matchedItems items "" = [] /\
  forall (c : ascii) (k : string),
    filteredItems items (String c k)
    = filter (fun e => holds (Matches_dec (String c k) e)) items.
Proof.
  split; [reflexivity | split; [reflexivity |]]. intros c k.
  unfold filteredItems. cbn [JS.truthy negb].
  apply filter_ext. intros e. rewrite holds_Matches.
  unfold ListSearch.isCandidate. cbv zeta.
  destruct (JS.includes (JS.toLowerCase (title e)) _),
           (JS.includes (JS.toLowerCase (subtitle e)) _),
           (JS.includes (JS.toLowerCase (trigger e)) _); reflexivity.
Qed.

End Codec.

(* ================================================================== *)
(** ** Host entry: the initial query *)
(* ================================================================== *)

Section HostEntry.

Import App.

(** The payload has the form the pattern [^wj\s+(.+)$] describes: the
    keyword, a non-empty run [ws] of white space, and a non-empty free text
    [g] without line terminators, up to the end. *)
Definition PatternMatch (p ws g : string) : Prop :=
  p = ("wj" ++ ws ++ g)%string /\
  ws <> EmptyString /\ allChars JS.isWhiteSpace ws = true /\
  g <> EmptyString /\
  allChars (fun c => negb (JS.isLineTerminator c)) g = true.

Lemma trimStart_skips (ws g : string) :
  allChars JS.isWhiteSpace ws = true ->
  JS.trimStart (ws ++ g) = JS.trimStart g.
Proof.
  induction ws as [| c ws IH]; simpl; [reflexivity |].
  intros H. apply andb_true_iff in H as [-> H]. now apply IH.
Qed.

Lemma dotPlusToEnd_sound (s g : string) :
  dotPlusToEnd s = Some g ->
  g = s /\ g <> EmptyString /\
  allChars (fun c => negb (JS.isLineTerminator c)) g = true.
Proof.
  destruct s as [| c r]; [discriminate |]. unfold dotPlusToEnd.
  destruct (allChars _ _) eqn:E; [| discriminate].
  intros [= <-]. repeat split; [discriminate | exact E].
Qed.

(** Whatever the pattern captures is preceded by white space only. *)
Lemma spacesThenGroup_sound (s g : string) :
  spacesThenGroup s = Some g ->
  exists ws, s = (ws ++ g)%string /\ ws <> EmptyString /\
             allChars JS.isWhiteSpace ws = true /\ g <> EmptyString /\
             allChars (fun c => negb (JS.isLineTerminator c)) g = true.
Proof.
  revert g. induction s as [| c r IH]; intros g; simpl; [discriminate |].
  destruct (JS.isWhiteSpace c) eqn:Ec; [| discriminate].
  destruct (spacesThenGroup r) as [g' |] eqn:Er.
  - intros [= <-]. destruct (IH g' eq_refl) as (ws & -> & _ & Hws & Hg).
    exists (String c ws). simpl. rewrite Ec, Hws.
    repeat split; try discriminate; tauto.
  - intros H. apply dotPlusToEnd_sound in H as (-> & Hg).
    exists (String c EmptyString). simpl. rewrite Ec.
    repeat split; try discriminate; tauto.
Qed.

(** Whenever the payload can be split as the pattern asks, the engine
    finds a match. *)
Lemma spacesThenGroup_complete (ws g : string) :
  ws <> EmptyString -> allChars JS.isWhiteSpace ws = true ->
  g <> EmptyString ->
  allChars (fun c => negb (JS.isLineTerminator c)) g = true ->
  exists g', spacesThenGroup (ws ++ g) = Some g'.
Proof.
  intros Hne Hws Hg Hlt. induction ws as [| c ws IH]; [congruence |].
  simpl in Hws. apply andb_true_iff in Hws as [Hc Hws].
  simpl. rewrite Hc. destruct ws as [| c' ws'].
  - simpl. destruct (spacesThenGroup g) as [g' |]; [now exists g' |].
    exists g. unfold dotPlusToEnd. destruct g; [congruence |]. now rewrite Hlt.
  - destruct IH as [g' ->]; [discriminate | exact Hws |]. now exists g'.
Qed.

Lemma matchKeyword_prefix (p g : string) :
  matchKeyword p = Some g ->
  exists r, p = ("wj" ++ r)%string /\ spacesThenGroup r = Some g.
Proof.
  unfold matchKeyword.
  destruct p as [| a [| b r]]; try discriminate;
    try (destruct a as [[] [] [] [] [] [] [] []]; discriminate).
  destruct a as [[] [] [] [] [] [] [] []]; try discriminate.
  destruct b as [[] [] [] [] [] [] [] []]; try discriminate.
  intros H. now exists r.
Qed.

Lemma initialQuery_payload (saved : option (list ListItem)) (action : Action) :
  initialQuery saved action = payload (enterAction (onPluginEnter action)).
Proof.
  unfold initialQuery.
  change (ListSearch.onMounted saved ?p ListSearch.initial)
    with (mounted saved p).
  now rewrite mounted_shape.
Qed.

(** C9, as the code has it. On activation with the search code, a payload
    made of the keyword, white space and free text yields the free text with
    the white space at both of its ends trimmed off as the initial query;
    any other payload is the initial query as it stands. *)
Theorem initialQuery_from_payload
    (saved : option (list ListItem)) (p : string) :
  let q := initialQuery saved (mkAction "list-search" p) in
  (forall ws g, PatternMatch p ws g -> q = JS.trim g) /\
  ((forall ws g, ~ PatternMatch p ws g) -> q = p).
Proof.
  cbv zeta. rewrite initialQuery_payload. unfold onPluginEnter.
  cbn [code payload enterAction]. rewrite String.eqb_refl. cbn [andb].
  split.
  - intros ws g (-> & Hne & Hws & Hg & Hlt).
    destruct (spacesThenGroup_complete ws g Hne Hws Hg Hlt) as [g' Hg'].
    cbn [JS.truthy append matchKeyword]. rewrite Hg'.
    destruct (spacesThenGroup_sound _ _ Hg') as (ws' & E & _ & Hws' & Hg'ne & _).
    destruct g' as [| c' r']; [congruence |]. cbn [JS.truthy payload].
    unfold JS.trim. f_equal.
    rewrite <- (trimStart_skips ws' _ Hws'), <- E.
    now apply trimStart_skips.
  - intros Hno. destruct (JS.truthy p); [| reflexivity].
    destruct (matchKeyword p) as [g |] eqn:E; [| reflexivity].
    exfalso. apply matchKeyword_prefix in E as (r & -> & Hr).
    apply spacesThenGroup_sound in Hr as (ws & -> & H).
    apply (Hno ws g). split; [reflexivity | exact H].
Qed.

Example initialQuery_examples :
  initialQuery None (mkAction "list-search" "wj  Em") = "Em" /\
  initialQuery None (mkAction "list-search" "email") = "email" /\
  initialQuery None (mkAction "list-search" "wjem") = "wjem" /\
  initialQuery None (mkAction "list-search" "wj ") = "wj ".
Proof. vm_compute. repeat split. Qed.

(** C9 as the specification states it fails: the payload matches the
    pattern, the free text it captures ends in a space, and the initial query
    is that text without the space. *)
Lemma initialQuery_is_trimmed :
  PatternMatch "wj foo " " " "foo " /\
  matchKeyword "wj foo " = Some "foo " /\
  initialQuery None (mkAction "list-search" "wj foo ") = "foo" /\
  initialQuery None (mkAction "list-search" "wj foo ") <> "foo ".
Proof.
  split; [| split; [| split]].
  - unfold PatternMatch. repeat split; discriminate.
  - reflexivity.
  - reflexivity.
  - vm_compute. discriminate.
Qed.

End HostEntry.

(* ================================================================== *)
(** ** MatchEngine, continued: the comparator, the two filters, the head of
       the ranking *)
(* ================================================================== *)

Section MatchEngineFacts.

Lemma append_empty_r (s : string) : (s ++ "")%string = s.
Proof. induction s as [| c s IH]; simpl; [reflexivity | now rewrite IH]. Qed.



Lemma Contains_refl (s : string) : Contains s s.
Proof. exists EmptyString, EmptyString. simpl. now rewrite append_empty_r. Qed.



Lemma CIEquals_Matches (q : string) (e : ListItem) :
  CIEquals (trigger e) q -> Matches q e.
Proof.
  unfold CIEquals, Matches, CIContains. intros ->. left. apply Contains_refl.
Qed.

Lemma eqb_startsWith (s k : string) :
  String.eqb s k = true -> JS.startsWith s k = true.
Proof. intros H. apply String.eqb_eq in H as ->. apply startsWith_refl. Qed.

Lemma filteredItems_nonempty_keyword
    (items : list ListItem) (c : ascii) (k : string) :
  ListManager.filteredItems items (String c k)
  = filter (fun e => holds (Matches_dec (String c k) e)) items.
Proof.
  unfold ListManager.filteredItems. cbn [JS.truthy negb].
  apply filter_ext. intros e. rewrite holds_Matches.
  unfold ListSearch.isCandidate. cbv zeta.
  destruct (JS.includes (JS.toLowerCase (title e)) _),
           (JS.includes (JS.toLowerCase (subtitle e)) _),
           (JS.includes (JS.toLowerCase (trigger e)) _); reflexivity.
Qed.

Lemma matchedItems_In (items : list ListItem) (q : string) (e : ListItem) :
  In e (ListSearch.matchedItems items q) <->
  q <> EmptyString /\ In e items /\ Matches q e.
Proof.
  destruct q as [| c q'].
  - simpl. split; [intros [] | intros [H _]; congruence].
  - rewrite matchedItems_nonempty_query.
    assert (P := sort_Permutation ListItem
                   (ListSearch.compareFn (JS.toLowerCase (String c q')))
                   (filter (fun e => holds (Matches_dec (String c q') e)) items)).
    split.
    + intros H. apply (Permutation_in _ P), filter_In in H.
      rewrite holds_true_iff in H. split; [discriminate | exact H].
    + intros (_ & H). apply (Permutation_in _ (Permutation_sym P)), filter_In.
      now rewrite holds_true_iff.
Qed.

(** X1. The comparator of [matchedItems] is consistent for every keyword: it
    only takes the values -1, 0 and 1, swapping its arguments negates it,
    and "not after" is transitive. *)
Theorem compareFn_consistent (keyword : string) (a b c : ListItem) :
  (ListSearch.compareFn keyword a b = -1 \/
   ListSearch.compareFn keyword a b = 0 \/
   ListSearch.compareFn keyword a b = 1)%Z /\
  ListSearch.compareFn keyword b a = (- ListSearch.compareFn keyword a b)%Z /\
  ((ListSearch.compareFn keyword a b <= 0)%Z ->
   (ListSearch.compareFn keyword b c <= 0)%Z ->
   (ListSearch.compareFn keyword a c <= 0)%Z).
Proof.
  unfold ListSearch.compareFn. cbv zeta.
  pose proof (eqb_startsWith (JS.toLowerCase (trigger a)) keyword) as Ha.
  pose proof (eqb_startsWith (JS.toLowerCase (trigger b)) keyword) as Hb.
  pose proof (eqb_startsWith (JS.toLowerCase (trigger c)) keyword) as Hc.
  destruct (String.eqb (JS.toLowerCase (trigger a)) keyword),
           (String.eqb (JS.toLowerCase (trigger b)) keyword),
           (String.eqb (JS.toLowerCase (trigger c)) keyword);
    try rewrite (Ha eq_refl); try rewrite (Hb eq_refl);
    try rewrite (Hc eq_refl); clear Ha Hb Hc;
    destruct (JS.startsWith (JS.toLowerCase (trigger a)) keyword),
             (JS.startsWith (JS.toLowerCase (trigger b)) keyword),
             (JS.startsWith (JS.toLowerCase (trigger c)) keyword);
    simpl; repeat split; auto; lia.
Qed.

(** X2. Only the lower-cased query matters: two queries that differ in case
    alone give the same ranked candidates in the search view and the same
    filtered list in the management view. *)
Theorem query_case_is_ignored (items : list ListItem) (q q' : string) :
  JS.toLowerCase q = JS.toLowerCase q' ->
  ListSearch.matchedItems items q = ListSearch.matchedItems items q' /\
  ListManager.filteredItems items q = ListManager.filteredItems items q'.
Proof.
  intros H.
  assert (T : JS.truthy q = JS.truthy q').
  { destruct q, q'; simpl in *; congruence. }
  unfold ListSearch.matchedItems, ListManager.filteredItems.
  now rewrite T, H.
Qed.

Lemma query_case_is_ignored_witness :
  ListSearch.matchedItems twoEntries "PH" = ListSearch.matchedItems twoEntries "ph" /\
  ListManager.filteredItems twoEntries "PH" = ListManager.filteredItems twoEntries "ph".
Proof. apply (query_case_is_ignored twoEntries "PH" "ph"). reflexivity. Defined.

(** X3. For a non-empty query the search view and the management view select
    the same entries: the ranked candidates are a rearrangement of the
    management filter's result. *)
Theorem matchedItems_permutes_filteredItems
    (items : list ListItem) (c : ascii) (k : string) :
  Permutation (ListSearch.matchedItems items (String c k))
              (ListManager.filteredItems items (String c k)).
Proof.
  rewrite matchedItems_nonempty_query, filteredItems_nonempty_keyword.
  apply sort_Permutation.
Qed.


Lemma filter_first {A : Type} (p : A -> bool) (l : list A) (x : A) :
  In x l -> p x = true ->
  exists pre first post,
    l = pre ++ first :: post /\ p first = true /\
    (forall y, In y pre -> p y = false) /\
    filter p l = first :: filter p post.
Proof.
  induction l as [| y l IH]; intros Hin Hx; [destruct Hin |].
  destruct (p y) eqn:Ey.
  - exists [], y, l. simpl. rewrite Ey. repeat split; auto. intros z [].
  - destruct Hin as [-> | Hin]; [congruence |].
    destruct (IH Hin Hx) as (pre & first & post & -> & Hf & Hpre & Hfil).
    exists (y :: pre), first, post. simpl. rewrite Ey. repeat split; auto.
    intros z [<- | Hz]; auto.
Qed.

(** X5. When some entry's trigger equals the non-empty query ignoring case, the
    first candidate is such an entry, namely the earliest one in the
    collection. *)
Theorem exact_trigger_ranks_first
    (items : list ListItem) (c : ascii) (q' : string) (e : ListItem) :
  In e items -> CIEquals (trigger e) (String c q') ->
  exists pre first post rest,
    items = pre ++ first :: post /\
    CIEquals (trigger first) (String c q') /\
    (forall x, In x pre -> ~ CIEquals (trigger x) (String c q')) /\
    ListSearch.matchedItems items (String c q') = first :: rest.
Proof.
  intros Hin He. set (q := String c q') in *.
  destruct (filter_first (fun x => holds (CIEquals_dec (trigger x) q)) items e Hin)
    as (pre & first & post & Hitems & Hfirst & Hpre & Hfil).
  { now apply holds_true_iff. }
  subst q. rewrite matchedItems_nonempty_query.
  rewrite (sort_three_classes ListItem _ (rankOf (String c q'))
             (compareFn_rank (String c q')) (rankOf_le_2 (String c q'))).
  set (q := String c q') in *.
  assert (E : filter (inClass ListItem (rankOf q) 0)
                (filter (fun x => holds (Matches_dec q x)) items)
              = filter (fun x => holds (CIEquals_dec (trigger x) q)) items).
  { clear. induction items as [| x l IH]; [reflexivity |].
    cbn [filter].
    assert (Hc : inClass ListItem (rankOf q) 0 x
                 = holds (CIEquals_dec (trigger x) q)).
    { unfold inClass, rankOf, holds. destruct (CIEquals_dec _ _); [reflexivity |].
      destruct (CIStartsWith_dec _ _); reflexivity. }
    destruct (holds (Matches_dec q x)) eqn:Em.
    - cbn [filter]. rewrite Hc, IH. reflexivity.
    - destruct (holds (CIEquals_dec (trigger x) q)) eqn:Ex; [| exact IH].
      apply holds_true_iff in Ex. apply CIEquals_Matches in Ex.
      apply (holds_true_iff (Matches_dec q x)) in Ex. congruence. }
  rewrite E, Hfil.
  exists pre, first, post. eexists. repeat split.
  - exact Hitems.
  - now apply holds_true_iff in Hfirst.
  - intros x Hx Hc. apply Hpre in Hx.
    apply (holds_true_iff (CIEquals_dec (trigger x) q)) in Hc. congruence.
Qed.

Lemma exact_trigger_ranks_first_witness :
  exists pre first post rest,
    [mkItem "1" "first" "" "email" "d1"; mkItem "2" "second" "" "Em" "d2"]
      = pre ++ first :: post /\
    CIEquals (trigger first) "em" /\
    (forall x, In x pre -> ~ CIEquals (trigger x) "em") /\
    ListSearch.matchedItems
      [mkItem "1" "first" "" "email" "d1"; mkItem "2" "second" "" "Em" "d2"] "em"
    = first :: rest.
Proof.
  apply (exact_trigger_ranks_first _ "e" "m" (mkItem "2" "second" "" "Em" "d2")).
  - simpl. auto.
  - reflexivity.
Defined.

End MatchEngineFacts.

(* ================================================================== *)
(** ** SelectionController, continued: what a commit copies *)
(* ================================================================== *)

Section Commit.

Import ListSearch.

(** The host calls a search view can have made: any number of commits,
    each the copy of a candidate's payload followed by hide-window and
    exit-plugin, and of lone exit-plugin calls. *)
Inductive Commits (cands : list ListItem) : list HostCall -> Prop :=
| Commits_none : Commits cands []
| Commits_copy (cs : list HostCall) (e : ListItem) :
    Commits cands cs -> In e cands ->
    Commits cands (cs ++ [CopyText (data e); HideMainWindow; OutPlugin])
| Commits_exit (cs : list HostCall) :
    Commits cands cs -> Commits cands (cs ++ [OutPlugin]).

Lemma copySelectedItem_cases (st : State) :
  copySelectedItem st = st \/
  exists e,
    nth_error (candidates st) (Z.to_nat (selectedIndex st)) = Some e /\
    copySelectedItem st = call [CopyText (data e); HideMainWindow; OutPlugin] st.
Proof.
  unfold copySelectedItem.
  destruct (_ && _); [| now left].
  destruct (selectedIndex st <? 0)%Z; [now left |].
  destruct (nth_error _ _) as [e |]; [right; now exists e | now left].
Qed.

Lemma copySelectedItem_in_range (st : State) :
  InRange st -> candidates st <> [] ->
  exists e,
    nth_error (candidates st) (Z.to_nat (selectedIndex st)) = Some e /\
    copySelectedItem st = call [CopyText (data e); HideMainWindow; OutPlugin] st.
Proof.
  unfold InRange. cbv zeta. intros [Hpos _] Hne.
  assert (Hn : (0 < Z.of_nat (List.length (candidates st)))%Z).
  { destruct (candidates st); [congruence | simpl; lia]. }
  specialize (Hpos Hn).
  destruct (nth_error (candidates st) (Z.to_nat (selectedIndex st)))
    as [e |] eqn:E.
  - exists e. split; [reflexivity |]. unfold copySelectedItem. rewrite E.
    destruct (Z.gtb_spec (Z.of_nat (List.length (candidates st))) 0); [| lia].
    destruct (Z.ltb_spec (selectedIndex st)
                (Z.of_nat (List.length (candidates st)))); [| lia].
    destruct (Z.ltb_spec (selectedIndex st) 0); [lia | reflexivity].
  - apply nth_error_None in E. lia.
Qed.

(** X6. In every state the mounted search view can reach, Enter commits the
    candidate at the selected index (its payload is copied, then the window
    is hidden and the plugin left) whenever there is a candidate, and does
    nothing when there is none. *)
Theorem enter_commits_selected
    (saved : option (list ListItem)) (payload : string) (evs : list Event) :
  let st := run evs (mounted saved payload) in
  (candidates st = [] -> handleKeydown Enter st = st) /\
  (candidates st <> [] ->
   exists e,
     nth_error (candidates st) (Z.to_nat (selectedIndex st)) = Some e /\
     hostCalls (handleKeydown Enter st)
       = hostCalls st ++ [CopyText (data e); HideMainWindow; OutPlugin]).
Proof.
  intros st. split.
  - intros H. simpl. unfold copySelectedItem. now rewrite H.
  - intros Hne.
    assert (Hr : InRange st) by apply run_InRange, mounted_InRange.
    destruct (copySelectedItem_in_range st Hr Hne) as (e & He & Hc).
    exists e. split; [exact He |]. simpl. now rewrite Hc.
Qed.

(** X7. A click on the rendered candidate at [index] selects it and commits
    it: its payload is copied, then the window is hidden and the plugin
    left. *)
Theorem click_commits_clicked (st : State) (index : nat) (e : ListItem) :
  nth_error (candidates st) index = Some e ->
  selectedIndex (selectItem index st) = Z.of_nat index /\
  hostCalls (selectItem index st)
    = hostCalls st ++ [CopyText (data e); HideMainWindow; OutPlugin].
Proof.
  intros He.
  assert (Hlt : index < List.length (candidates st)).
  { apply nth_error_Some. congruence. }
  unfold selectItem, copySelectedItem.
  change (candidates (set_selectedIndex (Z.of_nat index) st))
    with (candidates st).
  cbn [selectedIndex set_selectedIndex].
  destruct (Z.gtb_spec (Z.of_nat (List.length (candidates st))) 0); [| lia].
  destruct (Z.ltb_spec (Z.of_nat index)
              (Z.of_nat (List.length (candidates st)))); [| lia].
  destruct (Z.ltb_spec (Z.of_nat index) 0); [lia |].
  rewrite Nat2Z.id, He. simpl. split; reflexivity.
Qed.

Lemma click_commits_clicked_witness :
  selectedIndex (selectItem 1 (mounted (Some twoEntries) "e")) = 1%Z /\
  hostCalls (selectItem 1 (mounted (Some twoEntries) "e"))
    = hostCalls (mounted (Some twoEntries) "e")
      ++ [CopyText "555-0100"; HideMainWindow; OutPlugin].
Proof.
  apply (click_commits_clicked (mounted (Some twoEntries) "e") 1
           (mkItem "2" "Phone" "" "ph" "555-0100")).
  reflexivity.
Defined.

Lemma step_Commits (cands : list ListItem) (st : State) (ev : Event) :
  candidates st = cands -> Commits cands (hostCalls st) ->
  Commits cands (hostCalls (step st ev)).
Proof.
  intros Hc H.
  assert (Hcopy : forall s, candidates s = cands -> hostCalls s = hostCalls st ->
                            Commits cands (hostCalls (copySelectedItem s))).
  { intros s Hs Hh.
    destruct (copySelectedItem_cases s) as [-> | (e & He & ->)].
    - now rewrite Hh.
    - simpl. rewrite Hh. apply Commits_copy; [exact H |].
      rewrite <- Hs. eapply nth_error_In, He. }
  destruct ev as [key | index | ms |]; simpl.
  - destruct (keydownListener st); [| exact H].
    destruct key; simpl; try exact H.
    + now destruct (_ <? _)%Z.
    + now destruct (_ >? _)%Z.
    + now apply Hcopy.
    + now apply Commits_exit.
  - destruct (_ && _); [| exact H]. unfold selectItem. now apply Hcopy.
  - unfold elapse. destruct (pendingTimeout st); [| exact H].
    destruct (_ <=? _)%nat; [| exact H]. now apply Hcopy.
  - exact H.
Qed.

Lemma run_Commits (cands : list ListItem) (evs : list Event) (st : State) :
  candidates st = cands -> Commits cands (hostCalls st) ->
  Commits cands (hostCalls (run evs st)).
Proof.
  revert st. induction evs as [| ev evs IH]; intros st Hc H; [exact H |].
  apply IH.
  - now rewrite step_candidates.
  - now apply step_Commits.
Qed.

Lemma Commits_copied (cands : list ListItem) (cs : list HostCall) (text : string) :
  Commits cands cs -> In (CopyText text) cs ->
  exists e, In e cands /\ data e = text.
Proof.
  induction 1 as [| cs e _ IH He | cs _ IH]; intros Hin.
  - destruct Hin.
  - apply in_app_or in Hin as [Hin | Hin]; [now apply IH |].
    destruct Hin as [[= <-] | [[=] | [[=] | []]]]. now exists e.
  - apply in_app_or in Hin as [Hin | Hin]; [now apply IH |].
    destruct Hin as [[=] | []].
Qed.

(** X8. Whatever happens to a mounted search view, the host calls it has made
    are commits and lone exits, and every text it has copied is the payload
    of an entry of the stored collection that matches the seeded query. In
    particular nothing is ever copied while there is no candidate. *)
Theorem only_candidates_are_copied
    (saved : option (list ListItem)) (payload : string) (evs : list Event) :
  let st := run evs (mounted saved payload) in
  Commits (candidates (mounted saved payload)) (hostCalls st) /\
  forall text,
    In (CopyText text) (hostCalls st) ->
    exists e,
      In e (match saved with Some l => l | None => [] end) /\
      Matches payload e /\ data e = text.
Proof.
  intros st.
  assert (H : Commits (candidates (mounted saved payload)) (hostCalls st)).
  { apply run_Commits; [reflexivity |].
    rewrite mounted_shape. apply Commits_none. }
  split; [exact H |]. intros text Hin.
  destruct (Commits_copied _ _ _ H Hin) as (e & He & Hd).
  rewrite mounted_shape in He. unfold candidates in He. simpl in He.
  apply matchedItems_In in He as (_ & Hitem & Hm). now exists e.
Qed.

Lemma elapse_idle (ms : nat) (st : State) :
  pendingTimeout st = None -> elapse ms st = st.
Proof. unfold elapse. now intros ->. Qed.

(** X9. Mounting schedules the auto-commit exactly when the seeded query leaves
    a single candidate whose trigger equals the query ignoring case. In
    every other case no timer is pending, and the mere passing of time
    makes no host call. *)
Theorem autoCommit_only_for_sole_exact
    (saved : option (list ListItem)) (payload : string) :
  let st0 := mounted saved payload in
  (pendingTimeout st0 = Some 100 <->
   exists e, candidates st0 = [e] /\ CIEquals (trigger e) payload) /\
  (pendingTimeout st0 <> Some 100 ->
   pendingTimeout st0 = None /\
   forall delays, hostCalls (run (map Elapse delays) st0) = []).
Proof.
  cbv zeta. rewrite mounted_shape. unfold candidates. cbv zeta.
  cbn [listItems searchKeyword pendingTimeout].
  set (items := match saved with Some l => l | None => [] end).
  assert (Hidle : forall delays st,
            pendingTimeout st = None -> hostCalls st = [] ->
            hostCalls (run (map Elapse delays) st) = []).
  { induction delays as [| d delays IH]; intros st Ht Hh; [exact Hh |].
    simpl. rewrite elapse_idle by exact Ht. now apply IH. }
  destruct (matchedItems items payload) as [| only [| second rest]] eqn:Ec.
  - split.
    + split; [discriminate | intros (e & [=] & _)].
    + intros _. split; [reflexivity |]. intros delays. now apply Hidle.
  - destruct (String.eqb _ _) eqn:Ee.
    + split.
      * split; [| reflexivity]. intros _. exists only.
        split; [reflexivity |]. now apply String.eqb_eq.
      * intros H. now destruct H.
    + split.
      * split; [discriminate |]. intros (e & [= <-] & He).
        apply String.eqb_neq in Ee. now destruct Ee.
      * intros _. split; [reflexivity |]. intros delays. now apply Hidle.
  - split.
    + split; [discriminate | intros (e & [=] & _)].
    + intros _. split; [reflexivity |]. intros delays. now apply Hidle.
Qed.

End Commit.

(* ================================================================== *)
(** ** ItemStore, continued: the management view as the user drives it *)
(* ================================================================== *)

Section ManagementSession.

Import ListManager.

(** The form's submit handler:
    [@submit.prevent="editingItem ? updateItem() : addItem()"]. *)
Definition submitForm (now : N) (st : State) : State :=
  match editingItem st with
  | Some _ => updateItem st
  | None => addItem now st
  end.

(** What the user can do in the management view: type into the form or
    into the search box (the [v-model] bindings), open the empty form, open
    an entry for editing, submit or cancel the form, delete an entry, clear
    everything, export and import. *)
Inductive UserAction : Type :=
| TypeForm (fd : FormData)
| TypeSearch (keyword : string)
| OpenAddForm
| Edit (item : ListItem)
| Submit (now : N)
| Cancel
| Delete (itemId : string) (confirmed : bool)
| Clear (confirmed : bool)
| Export (timestamp : string)
| Import (parsed : option JSON) (confirmed : bool).

Definition perform (st : State) (a : UserAction) : State :=
  match a with
  | TypeForm fd => set_formData fd st
  | TypeSearch keyword =>
      mkState (listItems st) (showAddForm st) (editingItem st) keyword
              (formData st) (storage st) (alerts st)
  | OpenAddForm =>
      mkState (listItems st) true (editingItem st) (searchKeyword st)
              (formData st) (storage st) (alerts st)
  | Edit item => editItem item st
  | Submit now => submitForm now st
  | Cancel => resetForm st
  | Delete itemId confirmed => deleteItem itemId confirmed st
  | Clear confirmed => clearAllData confirmed st
  | Export timestamp => fst (exportData timestamp st)
  | Import parsed confirmed => importData parsed confirmed st
  end.

(** A session of the management view: [onMounted] loads the stored blob,
    then the user acts. *)
Definition session (stored : option (list ListItem))
    (actions : list UserAction) : State :=
  fold_left perform actions (loadData (initial stored)).

(** The actions that can take entries away. *)
Definition removesEntries (a : UserAction) : bool :=
  match a with
  | Delete _ _ | Clear _ | Import _ _ => true
  | _ => false
  end.

(** The collection on screen is the one a reload would read. *)
Definition Synced (st : State) : Prop :=
  listItems st = match storage st with Some l => l | None => [] end.

Lemma addItem_cases (now : N) (st : State) :
  addItem now st = alert AlertRequiredFields st \/
  addItem now st
  = resetForm
      (saveData
         (set_listItems
            (listItems st
             ++ [mkItem (JS.toString now)
                   (formTitle (formData st)) (formSubtitle (formData st))
                   (formTrigger (formData st)) (formPayload (formData st))])
            st)).
Proof. unfold addItem. destruct (_ || _); [now left | now right]. Qed.

Lemma findIndex_Some {A : Type} (p : A -> bool) (l : list A) (i : nat) :
  findIndex p l = Some i ->
  exists pre x post,
    l = pre ++ x :: post /\ i = List.length pre /\ p x = true /\
    forall y, In y pre -> p y = false.
Proof.
  revert i. induction l as [| y l IH]; intros i; simpl; [discriminate |].
  destruct (p y) eqn:Ey.
  - intros [= <-]. exists [], y, l. repeat split; auto. intros z [].
  - destruct (findIndex p l) as [j |]; [| discriminate].
    intros [= <-]. destruct (IH j eq_refl) as (pre & x & post & -> & -> & Hx & Hpre).
    exists (y :: pre), x, post. repeat split; auto.
    intros z [<- | Hz]; auto.
Qed.

Lemma updateItem_cases (st : State) :
  updateItem st = st \/
  exists editing pre old post,
    editingItem st = Some editing /\
    listItems st = pre ++ old :: post /\ id old = id editing /\
    (forall y, In y pre -> id y <> id editing) /\
    updateItem st
    = resetForm
        (saveData
           (set_listItems
              (pre ++ mkItem (id editing)
                        (formTitle (formData st)) (formSubtitle (formData st))
                        (formTrigger (formData st)) (formPayload (formData st))
                   :: post)
              st)).
Proof.
  unfold updateItem. destruct (editingItem st) as [editing |]; [| now left].
  destruct (findIndex _ _) as [i |] eqn:E; [| now left].
  right. apply findIndex_Some in E as (pre & old & post & Hl & -> & Hold & Hpre).
  exists editing, pre, old, post. rewrite Hl, assignAt_middle.
  repeat split; auto.
  - now apply String.eqb_eq.
  - intros y Hy. apply String.eqb_neq. now apply Hpre.
Qed.

Lemma updateItem_ids (st : State) :
  map id (listItems (updateItem st)) = map id (listItems st).
Proof.
  destruct (updateItem_cases st)
    as [-> | (editing & pre & old & post & _ & Hl & Hold & _ & ->)];
    [reflexivity |].
  simpl. rewrite Hl, !map_app. simpl. now rewrite Hold.
Qed.

Lemma perform_Synced (st : State) (a : UserAction) :
  Synced st -> Synced (perform st a).
Proof.
  unfold Synced. intros H. destruct a; simpl; try exact H.
  - unfold submitForm. destruct (editingItem st).
    + destruct (updateItem_cases st) as [-> | (? & ? & ? & ? & _ & _ & _ & _ & ->)];
        [exact H | reflexivity].
    + destruct (addItem_cases now st) as [-> | ->]; [exact H | reflexivity].
  - destruct confirmed; [reflexivity | exact H].
  - destruct confirmed; [reflexivity | exact H].
  - unfold importData.
    destruct parsed as [[| b | n | s | l | members] |]; simpl; try exact H.
    + destruct confirmed; [reflexivity | exact H].
    + destruct (getMember "data" members) as [[| | | | l |] |]; simpl;
        try exact H.
      destruct confirmed; [reflexivity | exact H].
Qed.

Lemma session_Synced (stored : option (list ListItem))
    (actions : list UserAction) :
  Synced (session stored actions).
Proof.
  unfold session.
  assert (H : Synced (loadData (initial stored))) by now destruct stored.
  revert H. generalize (loadData (initial stored)).
  induction actions as [| a actions IH]; intros st H; [exact H |].
  apply IH, perform_Synced, H.
Qed.

(** X10. Whatever the user did in the management view, the stored blob holds
    the collection on screen: a management view mounted afresh loads
    exactly that collection, and so does a search view mounted with any
    payload. *)
Theorem reload_sees_collection
    (stored : option (list ListItem)) (actions : list UserAction)
    (payload : string) :
  let st := session stored actions in
  listItems (loadData (initial (storage st))) = listItems st /\
  ListSearch.listItems
    (ListSearch.onMounted (storage st) payload ListSearch.initial)
  = listItems st.
Proof.
  intros st. pose proof (session_Synced stored actions) as H.
  fold st in H. unfold Synced in H. split.
  - rewrite H. now destruct (storage st).
  - change (ListSearch.onMounted (storage st) payload ListSearch.initial)
      with (mounted (storage st) payload).
    rewrite mounted_shape. simpl. now rewrite H.
Qed.

Lemma perform_keeps_ids (st : State) (a : UserAction) :
  removesEntries a = false ->
  exists added,
    map id (listItems (perform st a)) = map id (listItems st) ++ added.
Proof.
  intros Ha. destruct a; try discriminate; simpl;
    try (exists []; now rewrite app_nil_r).
  unfold submitForm. destruct (editingItem st).
  - exists []. now rewrite app_nil_r, updateItem_ids.
  - destruct (addItem_cases now st) as [-> | ->].
    + exists []. now rewrite app_nil_r.
    + eexists. simpl. rewrite map_app. reflexivity.
Qed.

(** X11. As long as nothing is deleted, cleared or imported, the entries keep
    their ids and their order, and new ones only arrive at the end: the id
    sequence of the collection before is a prefix of the id sequence
    after. *)
Theorem ids_keep_their_order (st : State) (actions : list UserAction) :
  Forall (fun a => removesEntries a = false) actions ->
  exists added,
    map id (listItems (fold_left perform actions st))
    = map id (listItems st) ++ added.
Proof.
  intros H. revert st.
  induction H as [| a actions Ha _ IH]; intros st; simpl.
  - exists []. now rewrite app_nil_r.
  - destruct (IH (perform st a)) as [later ->].
    destruct (perform_keeps_ids st a Ha) as [added ->].
    exists (added ++ later). now rewrite app_assoc.
Qed.

Lemma ids_keep_their_order_witness :
  exists added,
    map id
      (listItems
         (fold_left perform
            [Edit (mkItem "2" "Phone" "" "ph" "555-0100");
             TypeForm (mkForm "Telephone" "office" "tel" "555-0199");
             Submit 1700000000000;
             OpenAddForm;
             TypeForm (mkForm "Web" "" "www" "https://example.org");
             Submit 1700000000001]
            (loadData (initial (Some twoEntries)))))
    = map id (listItems (loadData (initial (Some twoEntries)))) ++ added.
Proof.
  apply ids_keep_their_order. repeat constructor.
Defined.

Lemma filter_idempotent {A : Type} (p : A -> bool) (l : list A) :
  filter p (filter p l) = filter p l.
Proof.
  induction l as [| x l IH]; [reflexivity |]. simpl.
  destruct (p x) eqn:E; simpl; [now rewrite E, IH | exact IH].
Qed.

Lemma filter_all {A : Type} (p : A -> bool) (l : list A) :
  (forall x, In x l -> p x = true) -> filter p l = l.
Proof.
  induction l as [| x l IH]; intros H; [reflexivity |]. simpl.
  rewrite (H x (or_introl eq_refl)), IH; [reflexivity |].
  intros y Hy. apply H. now right.
Qed.

Lemma filter_none {A : Type} (p : A -> bool) (l : list A) :
  (forall x, In x l -> p x = false) -> filter p l = [].
Proof.
  induction l as [| x l IH]; intros H; [reflexivity |]. simpl.
  rewrite (H x (or_introl eq_refl)). apply IH.
  intros y Hy. apply H. now right.
Qed.

(** X12. A confirmed delete takes away every entry carrying the id, keeps all
    others and stores the result; doing it a second time changes nothing,
    and so does deleting an id no entry carries or declining the dialog. *)
Theorem deleteItem_removes_id (itemId : string) (st : State) :
  let st' := deleteItem itemId true st in
  (forall e, In e (listItems st') <-> In e (listItems st) /\ id e <> itemId) /\
  deleteItem itemId true st' = st' /\
  ((forall e, In e (listItems st) -> id e <> itemId) ->
   listItems st' = listItems st) /\
  storage st' = Some (listItems st') /\
  deleteItem itemId false st = st.
Proof.
  cbv zeta. unfold deleteItem. simpl.
  split; [| split; [| split; [| split; reflexivity]]].
  - intros e. rewrite filter_In, negb_true_iff, String.eqb_neq. tauto.
  - unfold saveData, set_listItems. simpl. now rewrite filter_idempotent.
  - intros H. apply filter_all. intros x Hx.
    apply negb_true_iff, String.eqb_neq. now apply H.
Qed.

(** X13. With pairwise distinct ids, opening an entry of the collection for
    editing and saving the form as it was filled in leaves the collection as
    it was, and stores it. *)
Theorem edit_then_save_unchanged (item : ListItem) (st : State) :
  In item (listItems st) -> NoDup (map id (listItems st)) ->
  listItems (updateItem (editItem item st)) = listItems st /\
  storage (updateItem (editItem item st)) = Some (listItems st).
Proof.
  intros Hin Hnd.
  destruct (in_split _ _ Hin) as (pre & post & Hl).
  assert (Hpre : forall y, In y pre -> id y <> id item).
  { intros y Hy E. rewrite Hl, map_app in Hnd. simpl in Hnd.
    apply NoDup_remove_2 in Hnd. apply Hnd, in_or_app. left.
    rewrite <- E. now apply in_map. }
  unfold updateItem, editItem. cbn [editingItem listItems formData].
  rewrite Hl, findIndex_first.
  - simpl. rewrite assignAt_middle. destruct item. split; reflexivity.
  - intros y Hy. apply String.eqb_neq. now apply Hpre.
  - apply String.eqb_refl.
Qed.

Lemma edit_then_save_unchanged_witness :
  listItems
    (updateItem
       (editItem (mkItem "2" "Phone" "" "ph" "555-0100")
          (loadData (initial (Some twoEntries)))))
  = twoEntries /\
  storage
    (updateItem
       (editItem (mkItem "2" "Phone" "" "ph" "555-0100")
          (loadData (initial (Some twoEntries)))))
  = Some twoEntries.
Proof.
  apply (edit_then_save_unchanged (mkItem "2" "Phone" "" "ph" "555-0100")
           (loadData (initial (Some twoEntries)))).
  - simpl. auto.
  - simpl. repeat constructor; simpl; intuition discriminate.
Defined.

(** X14. Adding an entry and then deleting the id it received gives back the
    collection as it was before, provided no earlier entry carried that
    id. *)
Theorem add_then_delete_restores (now : N) (st : State) :
  formTitle (formData st) <> "" -> formTrigger (formData st) <> "" ->
  (forall e, In e (listItems st) -> id e <> JS.toString now) ->
  listItems (deleteItem (JS.toString now) true (addItem now st))
  = listItems st.
Proof.
  intros Ht Hg Hfresh. unfold addItem.
  apply truthy_true_iff in Ht, Hg. rewrite Ht, Hg. simpl.
  rewrite filter_app. simpl. rewrite String.eqb_refl. simpl.
  rewrite app_nil_r. apply filter_all. intros x Hx.
  apply negb_true_iff, String.eqb_neq. now apply Hfresh.
Qed.

Lemma add_then_delete_restores_witness :
  listItems
    (deleteItem (JS.toString 1700000000000) true
       (addItem 1700000000000
          (set_formData (mkForm "Web" "" "www" "https://example.org")
             (loadData (initial (Some twoEntries))))))
  = twoEntries.
Proof.
  apply (add_then_delete_restores 1700000000000
           (set_formData (mkForm "Web" "" "www" "https://example.org")
              (loadData (initial (Some twoEntries))))).
  - discriminate.
  - discriminate.
  - intros e [<- | [<- | []]]; vm_compute; discriminate.
Defined.

(** X15. From store to clipboard: once an entry has been added whose trigger no
    other entry of the collection matches, a search view started with that
    trigger as its payload finds the new entry alone, and 100 ms after
    mounting copies its payload, hides the window and leaves the plugin. *)
Theorem added_entry_is_auto_committed (now : N) (st : State) :
  formTitle (formData st) <> "" -> formTrigger (formData st) <> "" ->
  (forall e, In e (listItems st) -> ~ Matches (formTrigger (formData st)) e) ->
  ListSearch.hostCalls
    (ListSearch.run [ListSearch.Elapse 100]
       (ListSearch.onMounted (storage (addItem now st))
          (formTrigger (formData st)) ListSearch.initial))
  = [CopyText (formPayload (formData st)); HideMainWindow; OutPlugin].
Proof.
  intros Ht Hg Hnone.
  set (fd := formData st) in *.
  set (new := mkItem (JS.toString now) (formTitle fd) (formSubtitle fd)
                (formTrigger fd) (formPayload fd)).
  assert (Hs : storage (addItem now st) = Some (listItems st ++ [new])).
  { unfold addItem. fold fd.
    apply truthy_true_iff in Ht, Hg. now rewrite Ht, Hg. }
  assert (Hm : ListSearch.matchedItems (listItems st ++ [new]) (formTrigger fd)
               = [new]).
  { destruct (formTrigger fd) as [| c t] eqn:Etr; [congruence |].
    rewrite matchedItems_nonempty_query, filter_app.
    rewrite filter_none.
    - simpl. assert (E : holds (Matches_dec (String c t) new) = true).
      { apply holds_true_iff, CIEquals_Matches. unfold new, CIEquals. simpl.
        rewrite ?Etr. reflexivity. }
      now rewrite E.
    - intros x Hx. destruct (holds (Matches_dec (String c t) x)) eqn:E;
        [| reflexivity].
      apply holds_true_iff in E. now destruct (Hnone x Hx). }
  rewrite Hs.
  change (ListSearch.onMounted ?s ?p ListSearch.initial) with (mounted s p).
  rewrite mounted_shape. cbv zeta. rewrite Hm.
  change (trigger new) with (formTrigger fd). rewrite String.eqb_refl.
  unfold ListSearch.run. cbn [fold_left ListSearch.step].
  unfold ListSearch.elapse, ListSearch.settleDelay.
  cbn [ListSearch.pendingTimeout]. rewrite Nat.leb_refl.
  now rewrite (fired_commit _ _ new).
Qed.

Lemma added_entry_is_auto_committed_witness :
  ListSearch.hostCalls
    (ListSearch.run [ListSearch.Elapse 100]
       (ListSearch.onMounted
          (storage
             (addItem 1700000000000
                (set_formData (mkForm "Web" "" "www" "https://example.org")
                   (loadData (initial (Some twoEntries))))))
          "www" ListSearch.initial))
  = [CopyText "https://example.org"; HideMainWindow; OutPlugin].
Proof.
  apply (added_entry_is_auto_committed 1700000000000
           (set_formData (mkForm "Web" "" "www" "https://example.org")
              (loadData (initial (Some twoEntries))))).
  - discriminate.
  - discriminate.
  - intros e [<- | [<- | []]] H;
      apply (holds_true_iff (Matches_dec _ _)) in H; vm_compute in H;
      discriminate.
Defined.

End ManagementSession.

(* ================================================================== *)
(** ** What both views render: keys *)
(* ================================================================== *)

Section RenderedKeys.

Lemma distinct_ids_filter (keep : ListItem -> bool) (items : list ListItem) :
  NoDup (map id items) -> NoDup (map id (filter keep items)).
Proof.
  induction items as [| e items IH]; simpl; [trivial |].
  rewrite NoDup_cons_iff. intros [Hfresh Hrest].
  destruct (keep e); simpl; auto.
  apply NoDup_cons; auto.
  rewrite in_map_iff. intros (e' & Hid & Hin).
  apply filter_In in Hin. apply Hfresh. rewrite <- Hid.
  apply in_map, Hin.
Qed.

(** X16. Both views render their list with the entry id as the key of each row.
    When the ids of the collection are pairwise distinct, so are the keys of
    the ranked candidates and of the management filter's result, for every
    query. *)
Theorem rendered_keys_stay_unique (items : list ListItem) (q : string) :
  NoDup (map id items) ->
  NoDup (map id (ListSearch.matchedItems items q)) /\
  NoDup (map id (ListManager.filteredItems items q)).
Proof.
  intros H. destruct q as [| c k].
  - split; [constructor | exact H].
  - rewrite filteredItems_nonempty_keyword. split.
    + rewrite matchedItems_nonempty_query.
      eapply Permutation_NoDup.
      * apply Permutation_sym, Permutation_map, sort_Permutation.
      * now apply distinct_ids_filter.
    + now apply distinct_ids_filter.
Qed.

Lemma rendered_keys_stay_unique_witness :
  NoDup (map id (ListSearch.matchedItems twoEntries "e")) /\
  NoDup (map id (ListManager.filteredItems twoEntries "e")).
Proof.
  apply (rendered_keys_stay_unique twoEntries "e").
  simpl. repeat constructor; simpl; intuition discriminate.
Defined.

End RenderedKeys.

(* ================================================================== *)
(** ** Host entry, continued: the extracted query is trimmed *)
(* ================================================================== *)

Section HostEntryFacts.

Import App.

Definition noLeadingSpace (s : string) : bool :=
  match s with
  | EmptyString => true
  | String c _ => negb (JS.isWhiteSpace c)
  end.

Lemma trimStart_noLeadingSpace (s : string) :
  noLeadingSpace (JS.trimStart s) = true.
Proof.
  induction s as [| c r IH]; [reflexivity |]. simpl.
  destruct (JS.isWhiteSpace c) eqn:E; [exact IH |]. simpl. now rewrite E.
Qed.

Lemma trimStart_fixed (s : string) :
  noLeadingSpace s = true -> JS.trimStart s = s.
Proof.
  destruct s as [| c r]; [reflexivity |]. simpl.
  now destruct (JS.isWhiteSpace c).
Qed.

Lemma trimEnd_noLeadingSpace (s : string) :
  noLeadingSpace s = true -> noLeadingSpace (JS.trimEnd s) = true.
Proof.
  destruct s as [| c r]; [reflexivity |]. simpl. intros H.
  apply negb_true_iff in H.
  destruct (JS.trimEnd r); rewrite ?H; simpl; now rewrite H.
Qed.

Lemma trimEnd_idempotent (s : string) :
  JS.trimEnd (JS.trimEnd s) = JS.trimEnd s.
Proof.
  induction s as [| c r IH]; [reflexivity |]. simpl.
  destruct (JS.trimEnd r) as [| c' r'] eqn:E.
  - destruct (JS.isWhiteSpace c) eqn:Ec; [reflexivity |]. simpl. now rewrite Ec.
  - change (JS.trimEnd (String c (String c' r')))
      with (match JS.trimEnd (String c' r') with
            | EmptyString =>
                if JS.isWhiteSpace c then EmptyString else String c EmptyString
            | String a b => String c (String a b)
            end).
    now rewrite IH.
Qed.

Lemma trim_idempotent (s : string) : JS.trim (JS.trim s) = JS.trim s.
Proof.
  unfold JS.trim.
  rewrite (trimStart_fixed (JS.trimEnd (JS.trimStart s))).
  - apply trimEnd_idempotent.
  - apply trimEnd_noLeadingSpace, trimStart_noLeadingSpace.
Qed.

Lemma keyword_payload (p ws g : string) :
  PatternMatch p ws g ->
  payload (enterAction (onPluginEnter (mkAction "list-search" p))) = JS.trim g.
Proof.
  intros (-> & Hne & Hws & Hg & Hlt). unfold onPluginEnter.
  cbn [code payload enterAction]. rewrite String.eqb_refl. cbn [andb].
  destruct (spacesThenGroup_complete ws g Hne Hws Hg Hlt) as [g' Hg'].
  cbn [JS.truthy append matchKeyword]. rewrite Hg'.
  destruct (spacesThenGroup_sound _ _ Hg') as (ws' & E & _ & Hws' & Hg'ne & _).
  destruct g' as [| c' r']; [congruence |]. cbn [JS.truthy payload].
  unfold JS.trim. f_equal.
  rewrite <- (trimStart_skips ws' _ Hws'), <- E.
  now apply trimStart_skips.
Qed.

(** X17. A query extracted from a keyword payload carries no white space at
    either end (trimming it again changes nothing), and the search view is
    seeded with exactly the text the handler stored in the action. *)
Theorem extracted_query_is_trimmed
    (saved : option (list ListItem)) (p ws g : string) :
  PatternMatch p ws g ->
  let q := initialQuery saved (mkAction "list-search" p) in
  JS.trim q = q /\ noLeadingSpace q = true /\
  q = payload (enterAction (onPluginEnter (mkAction "list-search" p))).
Proof.
  intros H q. subst q. rewrite initialQuery_payload.
  rewrite (keyword_payload p ws g H). repeat split.
  - apply trim_idempotent.
  - apply trimEnd_noLeadingSpace, trimStart_noLeadingSpace.
Qed.

Lemma extracted_query_is_trimmed_witness :
  JS.trim (initialQuery None (mkAction "list-search" "wj  foo bar "))
  = initialQuery None (mkAction "list-search" "wj  foo bar ") /\
  noLeadingSpace (initialQuery None (mkAction "list-search" "wj  foo bar "))
  = true /\
  initialQuery None (mkAction "list-search" "wj  foo bar ")
  = payload (enterAction (onPluginEnter (mkAction "list-search" "wj  foo bar "))).
Proof.
  apply (extracted_query_is_trimmed None "wj  foo bar " "  " "foo bar ").
  unfold PatternMatch. repeat split; discriminate.
Defined.

End HostEntryFacts.
